(** * TheMovieDatabase metadata provider: a shallow embedding

    Source: [scanner/providers/implementations/themoviedatabase.py].

    The provider queries a remote catalog over HTTP, reads untyped JSON
    payloads and builds [Movie] / [Show] / [Season] records, one fetch per
    locale, merged by [process_translations].

    Python values are modelled dynamically: a JSON payload is a [json]
    tree, a raised exception is the [Err] case of [result], the caller's
    mutable [language] list is threaded as explicit state, and the
    completion order of the concurrent per-locale tasks is a parameter. *)

From stdpp Require Import gmap strings list fin_maps fin_sets pretty.
From Stdlib Require Import ZArith Ascii.

#[local] Open Scope string_scope.
#[local] Open Scope Z_scope.

Set Warnings "-clear-no-such-hyp".

(** ** Python values *)

(** What [json.loads] produces.  Numbers are integers here: fractional
    numbers are outside the model. *)
#[warnings="-register-all"]
Inductive json : Type :=
  | JNull
  | JBool (b : bool)
  | JInt (z : Z)
  | JStr (s : string)
  | JList (l : list json)
  | JObj (o : gmap string json).

(** Hashable Python values, up to [==]: [True] and [1] are the same
    dictionary key, so booleans are stored as numbers. *)
Inductive pykey : Type :=
  | KNone
  | KNum (z : Z)
  | KStr (s : string).

#[global] Instance pykey_eq_dec : EqDecision pykey.
Proof. solve_decision. Defined.

#[global] Instance pykey_countable : Countable pykey.
Proof.
  refine (inj_countable'
    (λ k, match k with
          | KNone => inl ()
          | KNum z => inr (inl z)
          | KStr s => inr (inr s)
          end)
    (λ x, match x with
          | inl _ => KNone
          | inr (inl z) => KNum z
          | inr (inr s) => KStr s
          end) _).
  by intros [].
Defined.

(** A Python [dict] with arbitrary hashable keys. *)
Abbreviation pydict V := (gmap pykey V).

(** Exceptions that can reach the caller.  [NotFoundError] is the failure
    named by the interface documentation; the others are raised by the
    interpreter ([KeyError], [IndexError], [TypeError], [ValueError]) or
    by the HTTP transport. *)
Inductive exn : Type :=
  | KeyError (k : pykey)
  | IndexError
  | TypeError
  | ValueError
  | ClientResponseError (status : Z)
  | ClientConnectionError (code : Z)
  | NotFoundError.

#[global] Instance exn_eq_dec : EqDecision exn.
Proof. solve_decision. Defined.

(** ** Computations that may raise *)

Inductive result (A : Type) : Type :=
  | Ok (a : A)
  | Err (e : exn).
Arguments Ok {A} a.
Arguments Err {A} e.

#[global] Instance result_ret : MRet result := λ A, Ok.
#[global] Instance result_bind : MBind result := λ A B f r,
  match r with
  | Ok a => f a
  | Err e => Err e
  end.
#[global] Instance result_fmap : FMap result := λ A B f r,
  match r with
  | Ok a => Ok (f a)
  | Err e => Err e
  end.

Definition is_ok {A} (r : result A) : bool :=
  match r with
  | Ok _ => true
  | Err _ => false
  end.

(** A list comprehension [[e(x) for x in l if c(x)]]: the elements are
    visited in order; [f x] is [Ok None] when the condition rejects [x],
    and the first exception stops the comprehension. *)
Fixpoint comprehension {A B} (f : A → result (option B)) (l : list A)
    : result (list B) :=
  match l with
  | [] => Ok []
  | x :: l' =>
      o ← f x;
      r ← comprehension f l';
      Ok (match o with
          | Some b => b :: r
          | None => r
          end)
  end.

(** ** Interpreter primitives on JSON values *)

(** [hash(j)]: lists and dicts are unhashable. *)
Definition to_key (j : json) : option pykey :=
  match j with
  | JNull => Some KNone
  | JBool b => Some (KNum (Z.b2z b))
  | JInt z => Some (KNum z)
  | JStr s => Some (KStr s)
  | JList _ | JObj _ => None
  end.

Definition hash_key (j : json) : result pykey :=
  match to_key j with
  | Some k => Ok k
  | None => Err TypeError
  end.

(** [set(L)] for a list of locales, as a set of dictionary keys. *)
Definition locale_set (L : list json) : gset pykey :=
  list_to_set (omap to_key L).

(** [a == b]. *)
Fixpoint py_eq (a b : json) {struct a} : bool :=
  match a, b with
  | JNull, JNull => true
  | JBool x, JBool y => bool_decide (x = y)
  | JBool x, JInt z | JInt z, JBool x => bool_decide (Z.b2z x = z)
  | JInt x, JInt y => bool_decide (x = y)
  | JStr s, JStr t => bool_decide (s = t)
  | JList l, JList l' =>
      (fix go (l l' : list json) {struct l} : bool :=
         match l, l' with
         | [], [] => true
         | x :: l, y :: l' => py_eq x y && go l l'
         | _, _ => false
         end) l l'
  | JObj o, JObj o' =>
      bool_decide (size o = size o') &&
      map_fold (λ k v acc,
                  acc && match o' !! k with
                         | Some v' => py_eq v v'
                         | None => false
                         end) true o
  | _, _ => false
  end.

(** [x in l] for a list [l]. *)
Definition py_in (x : json) (l : list json) : bool :=
  existsb (py_eq x) l.

(** [bool(j)]. *)
Definition truthy (j : json) : bool :=
  match j with
  | JNull => false
  | JBool b => b
  | JInt z => negb (bool_decide (z = 0))
  | JStr s => negb (bool_decide (s = ""))
  | JList l => negb (bool_decide (l = []))
  | JObj o => negb (bool_decide (size o = 0%nat))
  end.

(** [j[k]] for a string literal [k]: only a dict can be subscripted by a
    string. *)
Definition getitem (j : json) (k : string) : result json :=
  match j with
  | JObj o =>
      match o !! k with
      | Some v => Ok v
      | None => Err (KeyError (KStr k))
      end
  | _ => Err TypeError
  end.

Definition chars (s : string) : list json :=
  (λ c, JStr (String c EmptyString)) <$> String.list_ascii_of_string s.

(** [j[i]] for a non-negative integer literal [i]. *)
Definition getindex (j : json) (i : nat) : result json :=
  match j with
  | JList l =>
      match l !! i with
      | Some v => Ok v
      | None => Err IndexError
      end
  | JStr s =>
      match chars s !! i with
      | Some v => Ok v
      | None => Err IndexError
      end
  | JObj _ => Err (KeyError (KNum (Z.of_nat i)))
  | _ => Err TypeError
  end.

(** [iter(j)]: a dict yields its keys (the order of the keys is not
    tracked), a string its characters. *)
Definition py_iter (j : json) : result (list json) :=
  match j with
  | JList l => Ok l
  | JStr s => Ok (chars s)
  | JObj o => Ok (JStr <$> (map_to_list o).*1)
  | _ => Err TypeError
  end.

(** [k in j] for a string literal [k]. *)
Definition contains (j : json) (k : string) : result bool :=
  match j with
  | JObj o => Ok (bool_decide (is_Some (o !! k)))
  | JList l => Ok (py_in (JStr k) l)
  | JStr s => Ok (bool_decide (is_Some (String.index 0 k s)))
  | _ => Err TypeError
  end.

(** Calendar dates, as [datetime.date]. *)
Record date : Type := Date { year : Z; month : Z; day : Z }.

(** What the module takes from the Python runtime and does not define:
    [repr] of a list or dict (needed when an f-string formats one) and
    [datetime.strptime(s, "%Y-%m-%d").date()], [None] standing for the
    [ValueError] of an unparsable string. *)
Class PyRuntime : Type := {
  repr_container : json → string;
  strptime_ymd : string → option date
}.

(** ** The domain model

    The classes of [..types] are declared outside this file; they are
    given here with the members and fields this module reads or writes.
    A field that receives a raw payload value has type [json]. *)

Inductive Genre : Type :=
  | ACTION | ADVENTURE | ANIMATION | COMEDY | CRIME | DOCUMENTARY
  | DRAMA | FAMILY | FANTASY | HISTORY | HORROR | MUSIC | MYSTERY
  | ROMANCE | SCIENCE_FICTION | THRILLER | WAR | WESTERN.

#[global] Instance Genre_eq_dec : EqDecision Genre.
Proof. solve_decision. Defined.

Module MovieStatus.
Inductive t : Type := FINISHED | PLANNED.
End MovieStatus.

Module ShowStatus.
Inductive t : Type := FINISHED | AIRING | PLANNED.
End ShowStatus.

Record MetadataID : Type := mkMetadataID {
  id : json;
  link : string
}.

Module Studio.
Record t : Type := mk {
  name : json;
  logos : list string;
  external_id : gmap string MetadataID
}.
End Studio.

(** Any object with a [translations] attribute: [fields] gathers every
    other attribute, [translations] is the locale-keyed dict. *)
Record entity (B Tr : Type) : Type := Entity {
  fields : B;
  translations : pydict Tr
}.
Arguments Entity {B Tr} fields translations.
Arguments fields {B Tr} e.
Arguments translations {B Tr} e.

Module MovieTranslation.
Record t : Type := mk {
  name : json;
  tagline : json;
  keywords : list json;
  overview : json;
  posters : list string;
  logos : list string;
  thumbnails : list string;
  trailers : list string
}.
End MovieTranslation.

Module Movie.
Record t : Type := mk {
  original_language : json;
  aliases : list json;
  release_date : date;
  status : MovieStatus.t;
  studios : list Studio.t;
  genres : list Genre;
  external_id : gmap string MetadataID
}.
End Movie.

Abbreviation Movie := (entity Movie.t MovieTranslation.t).

Module SeasonTranslation.
Record t : Type := mk {
  name : json;
  overview : json;
  poster : list string;
  thumbnails : list string
}.
End SeasonTranslation.

Module Season.
Record t : Type := mk {
  season_number : json;
  start_date : date;
  end_date : option date;
  external_id : gmap string MetadataID
}.
End Season.

Abbreviation Season := (entity Season.t SeasonTranslation.t).

Module ShowTranslation.
Record t : Type := mk {
  name : json;
  tagline : json;
  keywords : list json;
  overview : json;
  posters : list string;
  logos : list string;
  thumbnails : list string;
  trailers : list string
}.
End ShowTranslation.

Module Show.
Record t : Type := mk {
  original_language : json;
  aliases : list json;
  start_air : date;
  end_air : date;
  status : ShowStatus.t;
  studios : list Studio.t;
  genres : list Genre;
  external_id : gmap string MetadataID;
  seasons : list Season
}.
End Show.

Abbreviation Show := (entity Show.t ShowTranslation.t).

(** The partially identified show handed to [identify_show]. *)
Module PartialShow.
Record t : Type := mk {
  original_language : json;
  external_id : gmap string MetadataID
}.
End PartialShow.

(** ** The HTTP transport *)

(** What the provider reads of an [aiohttp] response: its status, and the
    outcome of decoding its body. *)
Record response : Type := Response {
  status : Z;
  json_body : result json
}.

(** [r.raise_for_status()]: the transport raises for a status of 400 or
    above. *)
Definition raise_for_status (r : response) : result unit :=
  if bool_decide (400 ≤ status r)
  then Err (ClientResponseError (status r))
  else Ok ().

(** The provider object: the injected session, as the function from URL
    and query parameters to the outcome of the GET, and the API key. *)
Record TheMovieDatabase : Type := mkTheMovieDatabase {
  _client : string → gmap string json → result response;
  api_key : string
}.

Definition base : string := "https://api.themoviedb.org/3".

Definition genre_map : pydict Genre :=
  list_to_map [
    (KNum 28, ACTION);
    (KNum 12, ADVENTURE);
    (KNum 16, ANIMATION);
    (KNum 35, COMEDY);
    (KNum 80, CRIME);
    (KNum 99, DOCUMENTARY);
    (KNum 18, DRAMA);
    (KNum 10751, FAMILY);
    (KNum 14, FANTASY);
    (KNum 36, HISTORY);
    (KNum 27, HORROR);
    (KNum 10402, MUSIC);
    (KNum 9648, MYSTERY);
    (KNum 10749, ROMANCE);
    (KNum 878, SCIENCE_FICTION);
    (KNum 53, THRILLER);
    (KNum 10752, WAR);
    (KNum 37, WESTERN)
  ].

Definition is_none (j : json) : bool :=
  match j with
  | JNull => true
  | _ => false
  end.

(** The query sent with a request: the entries of [params] whose value is
    not [None], over the [api_key] entry.  In
    [{"api_key": self.api_key, **params}] an entry of [params] replaces an
    earlier one of the same name. *)
Definition query_params (self : TheMovieDatabase) (params : gmap string json)
    : gmap string json :=
  let params := filter (λ kv, is_none kv.2 = false) params in
  params ∪ {[ "api_key" := JStr (api_key self) ]}.

Definition get (self : TheMovieDatabase) (path : string)
    (params : gmap string json) : result json :=
  r ← _client self (base +:+ "/" +:+ path) (query_params self params);
  raise_for_status r;;
  json_body r.

(** ** The translation aggregator *)

(** [asyncio.gather]: every task runs; [finish i] is the completion time
    of the i-th task.  When tasks raise, the exception that reaches the
    awaiting caller is the one raised first, that is, by the failing task
    with the least completion time (the earliest index among equals). *)
Fixpoint first_failure {A} (finish : nat → nat) (i : nat)
    (rs : list (result A)) : option (nat * exn) :=
  match rs with
  | [] => None
  | r :: rs' =>
      let rest := first_failure finish (S i) rs' in
      match r with
      | Ok _ => rest
      | Err e =>
          match rest with
          | Some (t, e') =>
              if bool_decide (t < finish i)%nat
              then Some (t, e')
              else Some (finish i, e)
          | None => Some (finish i, e)
          end
      end
  end.

Definition ok_values {A} (rs : list (result A)) : list A :=
  omap (λ r, match r with Ok a => Some a | Err _ => None end) rs.

Definition gather {A} (finish : nat → nat) (rs : list (result A))
    : result (list A) :=
  match first_failure finish 0 rs with
  | Some (_, e) => Err e
  | None => Ok (ok_values rs)
  end.

(** [{k: v.translations[k] for k, v in zip(languages, items)}], built
    left to right: a later pair replaces an earlier one with the same
    key. *)
Fixpoint merge_translations {B Tr} (acc : pydict Tr)
    (pairs : list (json * entity B Tr)) : result (pydict Tr) :=
  match pairs with
  | [] => Ok acc
  | (k, v) :: pairs' =>
      key ← hash_key k;
      t ← match translations v !! key with
          | Some t => Ok t
          | None => Err (KeyError key)
          end;
      merge_translations (<[key := t]> acc) pairs'
  end.

Definition process_translations {B Tr} (finish : nat → nat)
    (for_language : json → result (entity B Tr)) (languages : list json)
    : result (entity B Tr) :=
  items ← gather finish (for_language <$> languages);
  item ← match items !! 0%nat with
         | Some item => Ok item
         | None => Err IndexError
         end;
  tr ← merge_translations ∅ (zip languages items);
  Ok (Entity (fields item) tr).

(** A coroutine object that nothing has awaited yet: awaiting it runs it
    under some completion order of its tasks. *)
Definition coroutine (A : Type) : Type := (nat → nat) → result A.

(** What a caller of the provider can hold.  [Episode] is declared
    outside this file and nothing here reads its fields. *)
Inductive returned (Episode : Type) : Type :=
  | RMovie (m : Movie)
  | RShow (s : Show)
  | REpisode (e : Episode)
  | RCoroutine (c : coroutine Movie).
Arguments RMovie {Episode} m.
Arguments RShow {Episode} s.
Arguments REpisode {Episode} e.
Arguments RCoroutine {Episode} c.

Definition is_episode {Episode} (r : returned Episode) : bool :=
  match r with
  | REpisode _ => true
  | _ => false
  end.

Section Provider.
Context {rt : PyRuntime}.

(** [str(j)], as an f-string formats a value. *)
Definition py_str (j : json) : string :=
  match j with
  | JNull => "None"
  | JBool true => "True"
  | JBool false => "False"
  | JInt z => pretty z
  | JStr s => s
  | JList _ | JObj _ => repr_container j
  end.

(** [datetime.strptime(j, "%Y-%m-%d").date()]. *)
Definition parse_date (j : json) : result date :=
  match j with
  | JStr s =>
      match strptime_ymd s with
      | Some d => Ok d
      | None => Err ValueError
      end
  | _ => Err TypeError
  end.

Definition image_base : string := "https://image.tmdb.org/t/p/original".

Definition get_image (images : json) : result (list string) :=
  xs ← py_iter images;
  comprehension
    (λ x,
       c ← getitem x "file_path";
       if truthy c
       then p ← getitem x "file_path"; Ok (Some (image_base +:+ py_str p))
       else Ok None)
    xs.

Definition to_studio (company : json) : result Studio.t :=
  name ← getitem company "name";
  has_logo ← contains company "logo_path";
  logos ← (if has_logo : bool
           then p ← getitem company "logo_path";
                Ok [image_base +:+ py_str p]
           else Ok []);
  cid ← getitem company "id";
  cid' ← getitem company "id";
  Ok (Studio.mk name logos
        {[ "themoviedatabase" :=
             mkMetadataID cid
               ("https://www.themoviedb.org/company/" +:+ py_str cid') ]}).

(** One element of [[self.genre_map[x["id"]] for x in ... if x["id"] in
    self.genre_map]]. *)
Definition genre_of (x : json) : result (option Genre) :=
  c ← getitem x "id";
  k ← hash_key c;
  match genre_map !! k with
  | Some _ =>
      c' ← getitem x "id";
      k' ← hash_key c';
      match genre_map !! k' with
      | Some g => Ok (Some g)
      | None => Err (KeyError k')
      end
  | None => Ok None
  end.

Definition to_genres (genres : json) : result (list Genre) :=
  xs ← py_iter genres;
  comprehension genre_of xs.

(** One element of the [trailers] comprehension. *)
Definition trailer_of (x : json) : result (option string) :=
  ty ← getitem x "type";
  if py_eq ty (JStr "Trailer")
  then
    site ← getitem x "site";
    if py_eq site (JStr "YouTube")
    then
      key ← getitem x "key";
      Ok (Some ("https://www.youtube.com/watch?v" +:+ py_str key))
    else Ok None
  else Ok None.

Definition subitems (j : json) (outer inner field : string)
    : result (list json) :=
  o ← getitem j outer;
  i ← getitem o inner;
  xs ← py_iter i;
  comprehension (λ x, v ← getitem x field; Ok (Some v)) xs.

Definition images_of (j : json) (kind : string) : result (list string) :=
  i ← getitem j "images";
  p ← getitem i kind;
  get_image p.

Definition trailers_of (j : json) : result (list string) :=
  v ← getitem j "videos";
  r ← getitem v "results";
  xs ← py_iter r;
  comprehension trailer_of xs.

(** [{"themoviedatabase": MetadataID(..), "imdb": MetadataID(..)}] of a
    movie or show payload; [kind] is ["movie"] or ["tv"]. *)
Definition external_ids (j : json) (kind : string)
    : result (gmap string MetadataID) :=
  i ← getitem j "id";
  i' ← getitem j "id";
  imdb ← getitem j "imdb_id";
  imdb' ← getitem j "imdb_id";
  Ok ({[ "themoviedatabase" :=
           mkMetadataID i
             ("https://www.themoviedb.org/" +:+ kind +:+ "/" +:+ py_str i');
         "imdb" :=
           mkMetadataID imdb
             ("https://www.imdb.com/title/" +:+ py_str imdb') ]}).

Definition append_to_response : json :=
  JStr "alternative_titles,videos,credits,keywords,images".

(** The statements of [for_language] that follow the request, in
    [identify_movie] and in [identify_episode]: the payload [movie] is
    mapped to a [Movie] carrying the single translation [{lng: ..}]. *)
Definition to_movie (lng : json) (movie : json) : result Movie :=
  original_language ← getitem movie "original_language";
  aliases ← subitems movie "alternative_titles" "titles" "title";
  release_date ← (d ← getitem movie "release_date"; parse_date d);
  status ← (s ← getitem movie "status";
            Ok (if py_eq s (JStr "Released")
                then MovieStatus.FINISHED
                else MovieStatus.PLANNED));
  studios ← (cs ← getitem movie "production_companies";
             xs ← py_iter cs;
             comprehension (λ x, st ← to_studio x; Ok (Some st)) xs);
  genres ← (gs ← getitem movie "genres"; to_genres gs);
  external_id ← external_ids movie "movie";
  name ← getitem movie "title";
  tagline ← getitem movie "tagline";
  keywords ← subitems movie "keywords" "keywords" "name";
  overview ← getitem movie "overview";
  posters ← images_of movie "posters";
  logos ← images_of movie "logos";
  thumbnails ← images_of movie "backdrops";
  trailers ← trailers_of movie;
  key ← hash_key lng;
  Ok (Entity
        (Movie.mk original_language aliases release_date status studios
           genres external_id)
        {[ key := MovieTranslation.mk name tagline keywords overview
                    posters logos thumbnails trailers ]}).

(** The closure [for_language] of [identify_movie] and of
    [identify_episode], with the captured identifier as a parameter. *)
Definition movie_for_language (self : TheMovieDatabase) (movie_id : json)
    (lng : json) : result Movie :=
  movie ← get self ("/movie/" +:+ py_str movie_id)
            {[ "language" := lng; "append_to_response" := append_to_response ]};
  to_movie lng movie.

(** [language.append(x)] unless [x in language]; the value is the
    caller's list after the statement. *)
Definition add_language (x : json) (language : list json) : list json :=
  if py_in x language then language else language ++ [x].

Definition opt_int (o : option Z) : json :=
  match o with
  | Some z => JInt z
  | None => JNull
  end.

(** The [params] of the two search requests. *)
Definition movie_search (name : string) (year : option Z)
    : gmap string json :=
  {[ "query" := JStr name; "year" := opt_int year ]}.

Definition tv_search (name : string) : gmap string json :=
  {[ "query" := JStr name ]}.

(** The first search hit: its identifier and its original language. *)
Definition first_hit (self : TheMovieDatabase) (path : string)
    (params : gmap string json) : result (json * json) :=
  r ← get self path params;
  rs ← getitem r "results";
  search ← getindex rs 0;
  hit_id ← getitem search "id";
  ol ← getitem search "original_language";
  Ok (hit_id, ol).

(** Every operation returns the caller's [language] list as it is left,
    next to its outcome. *)
Definition identify_movie (self : TheMovieDatabase) (finish : nat → nat)
    (name : string) (year : option Z) (language : list json)
    : list json * result Movie :=
  match first_hit self "search/movie" (movie_search name year) with
  | Err e => (language, Err e)
  | Ok (movie_id, ol) =>
      let language := add_language ol language in
      (language,
       process_translations finish (movie_for_language self movie_id)
         language)
  end.

Definition to_season (season : json) (language : json) (show_id : json)
    : result Season :=
  season_number ← getitem season "season_number";
  start_date ← (d ← getitem season "air_date"; parse_date d);
  sid ← getitem season "id";
  number ← getitem season "season_number";
  name ← getitem season "name";
  overview ← getitem season "overview";
  has_poster ← contains season "poster_path";
  poster ← (if has_poster : bool
            then p ← getitem season "poster_path";
                 Ok [image_base +:+ py_str p]
            else Ok []);
  key ← hash_key language;
  Ok (Entity
        (Season.mk season_number start_date None
           {[ "themoviedatabase" :=
                mkMetadataID sid
                  ("https://www.themoviedb.org/tv/" +:+ py_str show_id
                     +:+ "/season/" +:+ py_str number) ]})
        {[ key := SeasonTranslation.mk name overview poster [] ]}).

Definition to_show (lng : json) (show : json) : result Show :=
  original_language ← getitem show "original_language";
  aliases ← subitems show "alternative_titles" "titles" "title";
  start_air ← (d ← getitem show "first_air_date"; parse_date d);
  end_air ← (d ← getitem show "last_air_date"; parse_date d);
  status ← (s ← getitem show "status";
            if py_eq s (JStr "Released")
            then Ok ShowStatus.FINISHED
            else
              p ← getitem show "in_production";
              Ok (if truthy p
                  then ShowStatus.AIRING
                  else ShowStatus.FINISHED));
  studios ← (cs ← getitem show "production_companies";
             xs ← py_iter cs;
             comprehension (λ x, st ← to_studio x; Ok (Some st)) xs);
  genres ← (gs ← getitem show "genres"; to_genres gs);
  external_id ← external_ids show "tv";
  seasons ← (ss ← getitem show "seasons";
             xs ← py_iter ss;
             comprehension
               (λ x, i ← getitem show "id";
                     se ← to_season x lng i;
                     Ok (Some se)) xs);
  name ← getitem show "name";
  tagline ← getitem show "tagline";
  keywords ← subitems show "keywords" "keywords" "name";
  overview ← getitem show "overview";
  posters ← images_of show "posters";
  logos ← images_of show "logos";
  thumbnails ← images_of show "backdrops";
  trailers ← trailers_of show;
  key ← hash_key lng;
  Ok (Entity
        (Show.mk original_language aliases start_air end_air status studios
           genres external_id seasons)
        {[ key := ShowTranslation.mk name tagline keywords overview
                    posters logos thumbnails trailers ]}).

Definition show_for_language (self : TheMovieDatabase) (show_id : json)
    (lng : json) : result Show :=
  show ← get self ("/tv/" +:+ py_str show_id)
           {[ "language" := lng; "append_to_response" := append_to_response ]};
  to_show lng show.

Definition identify_show (self : TheMovieDatabase) (finish : nat → nat)
    (show : PartialShow.t) (language : list json)
    : list json * result Show :=
  match PartialShow.external_id show !! "themoviedatabase" with
  | None => (language, Err (KeyError (KStr "themoviedatabase")))
  | Some mid =>
      let show_id := id mid in
      let language := add_language (PartialShow.original_language show)
                        language in
      (language,
       process_translations finish (show_for_language self show_id) language)
  end.

(** [identify_episode] ends with [return self.process_translations(..)],
    without [await]: its value is the coroutine object. *)
Definition identify_episode {Episode} (self : TheMovieDatabase)
    (name : string) (season episode absolute : option Z)
    (language : list json) : list json * result (returned Episode) :=
  match first_hit self "search/tv" (tv_search name) with
  | Err e => (language, Err e)
  | Ok (show_id, ol) =>
      let language := add_language ol language in
      (language,
       Ok (RCoroutine
             (λ finish,
                process_translations finish
                  (movie_for_language self show_id) language)))
  end.

End Provider.

(** ** A concrete runtime and a scripted remote catalog

    They run the operations on explicit inputs.  [example_runtime] reads
    dates written as four, two and two digits; none of the payloads below
    makes an f-string format a list or a dict. *)

Definition digit (c : ascii) : option Z :=
  let n := Z.of_N (Ascii.N_of_ascii c) in
  if bool_decide (48 ≤ n ≤ 57) then Some (n - 48) else None.

Fixpoint digits (acc : Z) (l : list ascii) : option Z :=
  match l with
  | [] => Some acc
  | c :: l' => d ← digit c; digits (10 * acc + d) l'
  end.

Definition days_in_month (y m : Z) : Z :=
  if bool_decide (m = 2)
  then if bool_decide (y mod 4 = 0 ∧ (y mod 100 ≠ 0 ∨ y mod 400 = 0))
       then 29 else 28
  else if bool_decide (m ∈ [4; 6; 9; 11]) then 30 else 31.

Definition strict_ymd (s : string) : option date :=
  match String.list_ascii_of_string s with
  | [y1; y2; y3; y4; "-"%char; m1; m2; "-"%char; d1; d2] =>
      y ← digits 0 [y1; y2; y3; y4];
      m ← digits 0 [m1; m2];
      d ← digits 0 [d1; d2];
      if bool_decide (1 ≤ y ∧ 1 ≤ m ≤ 12 ∧ 1 ≤ d ≤ days_in_month y m)
      then Some (Date y m d)
      else None
  | _ => None
  end.

Definition example_runtime : PyRuntime :=
  {| repr_container := λ _, "<container>";
     strptime_ymd := strict_ymd |}.

Definition image_entry (path : json) : json :=
  JObj {[ "file_path" := path ]}.

(** A detail payload of the catalog, with the locale-dependent title and
    the remote status as parameters. *)
Definition detail_payload (title : string) (remote_status : string) : json :=
  JObj (list_to_map [
    ("id", JInt 603);
    ("imdb_id", JStr "tt0133093");
    ("original_language", JStr "en");
    ("alternative_titles",
       JObj {[ "titles" := JList [JObj {[ "title" := JStr "Matrix" ]}] ]});
    ("release_date", JStr "1999-03-30");
    ("status", JStr remote_status);
    ("production_companies",
       JList [JObj {[ "name" := JStr "Village Roadshow"; "id" := JInt 79 ]}]);
    ("genres",
       JList [JObj {[ "id" := JInt 28; "name" := JStr "Action" ]};
              JObj {[ "id" := JInt 999999; "name" := JStr "Unlisted" ]};
              JObj {[ "id" := JInt 878; "name" := JStr "Science Fiction" ]}]);
    ("title", JStr title);
    ("tagline", JStr "");
    ("keywords", JObj {[ "keywords" := JList [JObj {[ "name" := JStr "hacker" ]}] ]});
    ("overview", JStr "A hacker learns the truth.");
    ("images",
       JObj {[ "posters" := JList [image_entry (JStr "/abc.jpg");
                                   image_entry JNull];
               "logos" := JList [];
               "backdrops" := JList [] ]});
    ("videos",
       JObj {[ "results" :=
                 JList [JObj {[ "type" := JStr "Trailer";
                                "site" := JStr "YouTube";
                                "key" := JStr "=vKQi3bBA1y8" ]};
                        JObj {[ "type" := JStr "Teaser";
                                "site" := JStr "YouTube";
                                "key" := JStr "=m8e-FF8MsqU" ]}] ]})
  ]).

Definition search_hit : json :=
  JObj {[ "id" := JInt 603; "original_language" := JStr "en" ]}.

(** A search result that declares another original language than the
    detail payload does. *)
Definition search_hit_ja : json :=
  JObj {[ "id" := JInt 603; "original_language" := JStr "ja" ]}.

Definition titled (lng : option json) : string :=
  match lng with
  | Some (JStr "fr") => "Matrix"
  | Some (JStr "de") => "Matrix (de)"
  | _ => "The Matrix"
  end.

(** A catalog that answers searches with [hits] and detail requests with
    [detail_payload] in the requested language, except that the detail
    request for a locale in [down] is answered with status 503. *)
Definition catalog (hits : list json) (down : list string)
    (url : string) (query : gmap string json) : result response :=
  if bool_decide (url = base +:+ "/search/movie" ∨ url = base +:+ "/search/tv")
  then Ok (Response 200 (Ok (JObj {[ "results" := JList hits ]})))
  else if bool_decide (url = base +:+ "//movie/603")
  then
    if match query !! "language" with
       | Some (JStr l) => bool_decide (l ∈ down)
       | _ => false
       end
    then Ok (Response 503 (Err ValueError))
    else Ok (Response 200
               (Ok (detail_payload (titled (query !! "language")) "Released")))
  else Ok (Response 404 (Err ValueError)).

Definition tmdb (hits : list json) (down : list string) : TheMovieDatabase :=
  mkTheMovieDatabase (catalog hits down) "k3y".

(** A remote that answers every request with the query it received. *)
Definition echo : TheMovieDatabase :=
  mkTheMovieDatabase (λ _ query, Ok (Response 200 (Ok (JObj query)))) "k3y".

(** The per-locale producer of the scripted catalog, under
    [example_runtime]. *)
Definition catalog_fetch (down : list string) : json → result Movie :=
  movie_for_language (rt := example_runtime) (tmdb [search_hit] down)
    (JInt 603).

(** The display name that a result carries for locale [k]. *)
Definition title_of (m : result Movie) (k : string) : option json :=
  match m with
  | Ok m => MovieTranslation.name <$> translations m !! KStr k
  | Err _ => None
  end.

(** Two completion orders of the per-locale tasks: in index order, and in
    reverse. *)
Definition in_order : nat → nat := λ i, i.
Definition reversed : nat → nat := λ i, (100 - i)%nat.

(** A show payload of the catalog, with two season summaries, the second
    without a poster. *)
Definition season_summary (number id : Z) (air_date : string)
    (poster : option string) : json :=
  JObj (list_to_map
          ([("season_number", JInt number);
            ("air_date", JStr air_date);
            ("id", JInt id);
            ("name", JStr "Season");
            ("overview", JStr "")]
           ++ match poster with
              | Some p => [("poster_path", JStr p)]
              | None => []
              end)%list).

Definition show_payload (title : string) (remote_status : string)
    (in_production : bool) : json :=
  JObj (list_to_map [
    ("id", JInt 1399);
    ("imdb_id", JStr "tt0944947");
    ("original_language", JStr "en");
    ("alternative_titles", JObj {[ "titles" := JList [] ]});
    ("first_air_date", JStr "2011-04-17");
    ("last_air_date", JStr "2019-05-19");
    ("status", JStr remote_status);
    ("in_production", JBool in_production);
    ("production_companies", JList []);
    ("genres", JList [JObj {[ "id" := JInt 18 ]}]);
    ("seasons",
       JList [season_summary 1 3624 "2011-04-17" (Some "/s1.jpg");
              season_summary 2 3625 "2012-04-01" None]);
    ("name", JStr title);
    ("tagline", JStr "");
    ("keywords", JObj {[ "keywords" := JList [] ]});
    ("overview", JStr "");
    ("images",
       JObj {[ "posters" := JList []; "logos" := JList [];
               "backdrops" := JList [] ]});
    ("videos", JObj {[ "results" := JList [] ]})
  ]).

(** A catalog that knows one show. *)
Definition tv_catalog (url : string) (query : gmap string json)
    : result response :=
  if bool_decide (url = base +:+ "//tv/1399")
  then Ok (Response 200
             (Ok (show_payload (titled (query !! "language")) "Ended"
                    false)))
  else Ok (Response 404 (Err ValueError)).

Definition tv_tmdb : TheMovieDatabase :=
  mkTheMovieDatabase tv_catalog "k3y".

Definition partial_show : PartialShow.t :=
  PartialShow.mk (JStr "en")
    {[ "themoviedatabase" :=
         mkMetadataID (JInt 1399) "https://www.themoviedb.org/tv/1399" ]}.

Definition company (logo : option json) : gmap string json :=
  list_to_map
    ([("name", JStr "Village Roadshow"); ("id", JInt 79)]
     ++ match logo with
        | Some p => [("logo_path", p)]
        | None => []
        end)%list.

(** * Properties *)

(** ** Computations that may raise *)

Lemma bind_Ok {A B} (c : result A) (f : A → result B) (b : B) :
  c ≫= f = Ok b → ∃ a, c = Ok a ∧ f a = Ok b.
Proof. destruct c as [a|e]; [by exists a | done]. Qed.

Lemma bind_Ok_l {A B} (f : A → result B) (a : A) :
  Ok a ≫= f = f a.
Proof. done. Qed.

Lemma bind_Err_l {A B} (f : A → result B) (e : exn) :
  Err e ≫= f = Err e.
Proof. done. Qed.

Lemma comprehension_cons {A B} (f : A → result (option B)) x l :
  comprehension f (x :: l)
  = f x ≫= λ o, comprehension f l ≫= λ r,
      Ok (match o with Some b => b :: r | None => r end).
Proof. done. Qed.

Lemma getitem_Some (o : gmap string json) (k : string) (v : json) :
  o !! k = Some v → getitem (JObj o) k = Ok v.
Proof. intros H. unfold getitem. by rewrite H. Qed.

Lemma getitem_None (o : gmap string json) (k : string) :
  o !! k = None → getitem (JObj o) k = Err (KeyError (KStr k)).
Proof. intros H. unfold getitem. by rewrite H. Qed.

(** Inverts a chain of binds that ends in [Ok]. *)
Ltac invert_binds H :=
  repeat match type of H with
         | _ ≫= _ = Ok _ =>
             let a := fresh "v" in
             let E := fresh "E" in
             apply bind_Ok in H as (a & E & H)
         end.

(** ** Equality and hashing of Python values *)

Lemma py_eq_JStr (a : json) (s : string) :
  py_eq a (JStr s) = true ↔ a = JStr s.
Proof.
  destruct a; simpl; try (split; [done | congruence]).
  rewrite bool_decide_eq_true. split; congruence.
Qed.

Lemma py_eq_to_key (a b : json) :
  py_eq a b = true → to_key a = to_key b.
Proof.
  destruct a, b; simpl; try done;
    rewrite bool_decide_eq_true; congruence.
Qed.

Lemma py_in_to_key (x : json) (l : list json) (k : pykey) :
  py_in x l = true → to_key x = Some k → k ∈ omap to_key l.
Proof.
  unfold py_in. intros (y & Hy & Heq)%existsb_exists Hk.
  apply list_elem_of_omap. exists y. split.
  - by apply list_elem_of_In.
  - by rewrite <- (py_eq_to_key _ _ Heq).
Qed.

Lemma hash_key_Ok (j : json) (k : pykey) :
  hash_key j = Ok k ↔ to_key j = Some k.
Proof.
  unfold hash_key. destruct (to_key j); split; congruence.
Qed.

(** ** The concurrent join *)

Section Gather.
Context {A : Type}.
Implicit Types (rs : list (result A)) (finish : nat → nat).

Lemma first_failure_None finish i rs :
  first_failure finish i rs = None → rs = Ok <$> ok_values rs.
Proof.
  revert i. induction rs as [|[a|e] rs IH]; intros i; simpl.
  - done.
  - intros H. unfold ok_values in *. simpl. f_equal. by eapply IH.
  - destruct (first_failure finish (S i) rs) as [[t e']|];
      [case_bool_decide|]; done.
Qed.

Lemma first_failure_Some finish i rs t e :
  first_failure finish i rs = Some (t, e) → Err e ∈ rs.
Proof.
  revert i t e. induction rs as [|[a|e0] rs IH]; intros i t e; simpl.
  - done.
  - intros H. right. by eapply IH.
  - destruct (first_failure finish (S i) rs) as [[t' e']|] eqn:E.
    + case_bool_decide; intros [= <- <-].
      * right. by eapply IH.
      * left.
    + intros [= <- <-]. left.
Qed.

Lemma first_failure_is_Some finish i rs e :
  Err e ∈ rs → is_Some (first_failure finish i rs).
Proof.
  revert i. induction rs as [|[a|e0] rs IH]; intros i Hin; simpl.
  - by apply elem_of_nil in Hin.
  - apply elem_of_cons in Hin as [?|Hin]; [done|]. by apply IH.
  - destruct (first_failure finish (S i) rs) as [[t' e']|];
      [case_bool_decide|]; eauto.
Qed.

Lemma ok_values_fmap_Ok (vs : list A) : ok_values (Ok <$> vs) = vs.
Proof.
  unfold ok_values. induction vs as [|v vs IH]; simpl; [done|].
  by f_equal.
Qed.

(** When every task returns, the join returns their values in index
    order, whatever the completion order. *)
Lemma gather_all_Ok finish (vs : list A) :
  gather finish (Ok <$> vs) = Ok vs.
Proof.
  unfold gather.
  destruct (first_failure finish 0 (Ok <$> vs)) as [[t e]|] eqn:E.
  - apply first_failure_Some in E.
    apply list_elem_of_fmap in E as (? & ? & ?). done.
  - by rewrite ok_values_fmap_Ok.
Qed.

Lemma gather_Ok finish rs (vs : list A) :
  gather finish rs = Ok vs → rs = Ok <$> vs.
Proof.
  unfold gather.
  destruct (first_failure finish 0 rs) as [[t e]|] eqn:E; [done|].
  intros [= <-]. by eapply first_failure_None.
Qed.

(** When a task raises, the join raises an exception of one of the
    tasks. *)
Lemma gather_Err finish rs e :
  Err e ∈ rs → ∃ e', gather finish rs = Err e' ∧ Err e' ∈ rs.
Proof.
  intros Hin. unfold gather.
  destruct (first_failure_is_Some finish 0 rs e Hin) as [[t e'] E].
  rewrite E. exists e'. split; [done|]. by eapply first_failure_Some.
Qed.

End Gather.

(** ** The translation aggregator *)

Section Aggregator.
Context {B Tr : Type}.
Implicit Types (fetch : json → result (entity B Tr)) (finish : nat → nat).
Implicit Types (acc tr : pydict Tr).

(** The keys of the merged dict are the keys already there and the keys
    of the pairs, each of which is hashable. *)
Lemma merge_translations_dom acc (pairs : list (json * entity B Tr)) tr :
  merge_translations acc pairs = Ok tr →
  dom tr = dom acc ∪ list_to_set (omap to_key pairs.*1)
  ∧ Forall (λ k, is_Some (to_key k)) pairs.*1.
Proof.
  revert acc. induction pairs as [|[k v] pairs IH]; intros acc; simpl.
  - intros [= <-]. split; [set_solver | done].
  - intros H. invert_binds H.
    apply hash_key_Ok in E. rewrite E. simpl.
    destruct (IH _ H) as [-> HF]. rewrite dom_insert_L.
    split; [set_solver | constructor; eauto].
Qed.

(** Merging the results of a producer over string locale codes: every
    locale gets the translation found under its own code in its own
    result. *)
Lemma merge_translations_fetch fetch (L : list string) acc :
  (∀ k, k ∈ L →
     ∃ e t, fetch (JStr k) = Ok e ∧ translations e !! KStr k = Some t) →
  ∃ es tr,
    fetch <$> (JStr <$> L) = Ok <$> es
    ∧ merge_translations acc (zip (JStr <$> L) es) = Ok tr
    ∧ dom tr = dom acc ∪ list_to_set (KStr <$> L)
    ∧ (∀ k, k ∈ L →
         ∃ e, fetch (JStr k) = Ok e
              ∧ tr !! KStr k = translations e !! KStr k)
    ∧ (∀ key, key ∉ KStr <$> L → tr !! key = acc !! key).
Proof.
  revert acc. induction L as [|k L IH]; intros acc Hall.
  - exists [], acc. simpl. split; [done|]. split; [done|].
    split; [set_solver|]. split; [|done].
    intros k Hk. by apply elem_of_nil in Hk.
  - destruct (Hall k) as (e & t & He & Ht); [left|].
    destruct (IH (<[KStr k := t]> acc)) as (es & tr & Hes & Hm & Hd & Hl & Hf).
    { intros k' Hk'. apply Hall. by right. }
    exists (e :: es), tr. simpl. rewrite He, Ht. simpl.
    split; [by f_equal|]. split; [done|]. split; [|split].
    + rewrite Hd, dom_insert_L. set_solver.
    + intros k' Hk'. destruct (decide (k' ∈ L)) as [Hin|Hnin]; [by apply Hl|].
      apply elem_of_cons in Hk' as [->|?]; [|done].
      exists e. split; [done|]. rewrite Hf.
      * by rewrite lookup_insert_eq.
      * intros (k'' & [= <-] & ?)%list_elem_of_fmap. done.
    + intros key Hkey. rewrite Hf.
      * apply lookup_insert_ne. intros <-. apply Hkey. left.
      * intros ?. apply Hkey. by right.
Qed.

(** C1.  For a non-empty list [L] of locale codes and a producer that
    returns, for each locale of [L], an entity carrying a translation
    under that locale, [process_translations] returns an entity whose
    non-translation fields are those of the producer's result for the
    first element of [L], under every completion order [finish] of the
    tasks, and whose [translations] has exactly the locales of [L] as
    keys, each mapped to the translation found under that locale in that
    locale's own result. *)
Theorem process_translations_merge finish fetch (L : list string) :
  L ≠ [] →
  (∀ k, k ∈ L →
     ∃ e t, fetch (JStr k) = Ok e ∧ translations e !! KStr k = Some t) →
  ∃ k0 e0 out,
    L !! 0%nat = Some k0
    ∧ fetch (JStr k0) = Ok e0
    ∧ process_translations finish fetch (JStr <$> L) = Ok out
    ∧ fields out = fields e0
    ∧ dom (translations out) = list_to_set (KStr <$> L)
    ∧ (∀ k, k ∈ L →
         ∃ e, fetch (JStr k) = Ok e
              ∧ translations out !! KStr k = translations e !! KStr k).
Proof.
  intros Hne Hall.
  destruct (merge_translations_fetch fetch L ∅ Hall)
    as (es & tr & Hes & Hm & Hd & Hl & _).
  destruct L as [|k0 L]; [done|].
  destruct es as [|e0 es]; [done|].
  assert (fetch (JStr k0) = Ok e0) as He0 by (by injection Hes).
  exists k0, e0, (Entity (fields e0) tr).
  split; [done|]. split; [done|]. split; [|split; [done|split; [|done]]].
  - unfold process_translations.
    rewrite Hes, gather_all_Ok. simpl. simpl in Hm. by rewrite Hm.
  - simpl. rewrite Hd. set_solver.
Qed.

(** C3.  If the producer raises for a locale of the list, the aggregation
    raises, under every completion order: it returns no entity, the
    exception is one raised by the producer for a locale of the list, and
    it is that very exception when no locale of the list raises another. *)
Theorem process_translations_all_or_nothing finish fetch
    (L : list json) (k : json) (e : exn) :
  k ∈ L →
  fetch k = Err e →
  is_ok (process_translations finish fetch L) = false
  ∧ (∃ k' e', k' ∈ L ∧ fetch k' = Err e'
              ∧ process_translations finish fetch L = Err e')
  ∧ ((∀ k' e', k' ∈ L → fetch k' = Err e' → e' = e) →
     process_translations finish fetch L = Err e).
Proof.
  intros Hk He.
  assert (Err e ∈ fetch <$> L) as Hin.
  { rewrite <- He. by apply list_elem_of_fmap_2. }
  destruct (gather_Err finish _ _ Hin) as (e' & Hg & Hin').
  apply list_elem_of_fmap in Hin' as (k' & Hk'e & Hk').
  assert (process_translations finish fetch L = Err e') as Hp.
  { unfold process_translations. by rewrite Hg. }
  split; [by rewrite Hp|]. split.
  - by exists k', e'.
  - intros Huniq. rewrite Hp. f_equal. by eapply Huniq.
Qed.

(** A result that carries no translation under its own locale makes the
    merge raise [KeyError]. *)
Lemma process_translations_KeyError finish fetch (k : string) e :
  fetch (JStr k) = Ok e →
  translations e !! KStr k = None →
  process_translations finish fetch [JStr k] = Err (KeyError (KStr k)).
Proof.
  intros He Hk. unfold process_translations.
  change (fetch <$> [JStr k]) with [fetch (JStr k)]. rewrite He.
  change [Ok e] with (Ok <$> [e]). rewrite gather_all_Ok.
  simpl. by rewrite Hk.
Qed.

(** What a successful aggregation tells: every task returned, the base is
    the result for the first locale, and the keys are those of the
    locales. *)
Lemma process_translations_Ok finish fetch (L : list json) out :
  process_translations finish fetch L = Ok out →
  ∃ k0 e0,
    L !! 0%nat = Some k0
    ∧ fetch k0 = Ok e0
    ∧ fields out = fields e0
    ∧ dom (translations out) = locale_set L
    ∧ Forall (λ k, is_Some (to_key k)) L.
Proof.
  unfold process_translations. intros H. invert_binds H.
  injection H as <-. rename v into items, v0 into item, v1 into tr.
  apply gather_Ok in E.
  assert (length L = length items) as Hlen.
  { by rewrite <- (length_fmap fetch L), E, length_fmap. }
  apply merge_translations_dom in E1 as [Hd HF].
  rewrite fst_zip in Hd, HF by lia.
  destruct items as [|e0 items]; [done|]. injection E0 as ->.
  destruct L as [|k0 L]; [done|].
  exists k0, item. injection E as E _.
  repeat split; try done. simpl. rewrite Hd. unfold locale_set. set_solver.
Qed.

End Aggregator.

(** ** Field mapping *)

Section FieldMapping.
Context {rt : PyRuntime}.

Lemma get_image_present (entries : list (gmap string json))
    (paths : list json) :
  Forall2 (λ o p, o !! "file_path" = Some p) entries paths →
  get_image (JList (JObj <$> entries))
  = Ok ((λ p, image_base +:+ py_str p)
          <$> filter (λ p, truthy p = true) paths).
Proof.
  unfold get_image, py_iter. rewrite bind_Ok_l.
  induction 1 as [|o p entries paths Hp _ IH]; [done|].
  rewrite fmap_cons, comprehension_cons, IH, filter_cons.
  rewrite !(getitem_Some _ _ _ Hp), bind_Ok_l.
  destruct (truthy p) eqn:Ht.
  - by rewrite decide_True by done.
  - by rewrite decide_False by done.
Qed.

Lemma get_image_absent (pre post : list (gmap string json))
    (o : gmap string json) :
  Forall (λ o', is_Some (o' !! "file_path")) pre →
  o !! "file_path" = None →
  get_image (JList (JObj <$> (pre ++ o :: post)%list))
  = Err (KeyError (KStr "file_path")).
Proof.
  unfold get_image, py_iter. rewrite bind_Ok_l. intros Hpre Ho.
  induction Hpre as [|o' pre [p Hp] _ IH].
  - simpl app. rewrite fmap_cons, comprehension_cons.
    by rewrite (getitem_None _ _ Ho).
  - rewrite <- app_comm_cons, fmap_cons, comprehension_cons, IH.
    rewrite !(getitem_Some _ _ _ Hp), bind_Ok_l.
    by destruct (truthy p).
Qed.

(** C6, as the code has it.  For a list of image entries that all carry a
    [file_path] key, [get_image] returns, in order, the base URL followed
    by the path of each entry whose path is truthy (neither null nor
    empty), a string path being appended as it is; the other entries are
    left out and nothing is raised.  An entry without the key is not left
    out: the first such entry makes [get_image] raise [KeyError]. *)
Theorem get_image_urls :
  (∀ (entries : list (gmap string json)) (paths : list json),
     Forall2 (λ o p, o !! "file_path" = Some p) entries paths →
     get_image (JList (JObj <$> entries))
     = Ok ((λ p, image_base +:+ py_str p)
             <$> filter (λ p, truthy p = true) paths))
  ∧ (∀ s : string,
       image_base +:+ py_str (JStr s)
       = "https://image.tmdb.org/t/p/original" +:+ s
       ∧ (truthy (JStr s) = true ↔ s ≠ ""))
  ∧ truthy JNull = false
  ∧ (∀ (pre post : list (gmap string json)) (o : gmap string json),
       Forall (λ o', is_Some (o' !! "file_path")) pre →
       o !! "file_path" = None →
       get_image (JList (JObj <$> (pre ++ o :: post)%list))
       = Err (KeyError (KStr "file_path"))).
Proof.
  split; [apply get_image_present|]. split; [|split; [done|]].
  - intros s. split; [done|]. simpl.
    rewrite negb_true_iff, bool_decide_eq_false. done.
  - apply get_image_absent.
Qed.


Lemma omap_cons_match {A C} (f : A → option C) (x : A) (l : list A) :
  omap f (x :: l)
  = match f x with
    | Some y => y :: omap f l
    | None => omap f l
    end.
Proof. done. Qed.





(** C8.  The status of a movie constructed from a detail response is
    [FINISHED] when the remote status is the string "Released", and
    [PLANNED] for every other remote status. *)
Theorem movie_status_released (lng payload : json) (m : Movie) :
  to_movie lng payload = Ok m →
  ∃ st, getitem payload "status" = Ok st
        ∧ (st = JStr "Released" →
           Movie.status (fields m) = MovieStatus.FINISHED)
        ∧ (st ≠ JStr "Released" →
           Movie.status (fields m) = MovieStatus.PLANNED).
Proof.
  unfold to_movie. intros H. invert_binds H. injection H as <-. simpl.
  match goal with
  | E : (getitem payload "status" ≫= _) = Ok _ |- _ =>
      apply bind_Ok in E as (st & Hst & [= <-]); exists st
  end.
  split; [done|]. split.
  - intros ->. done.
  - intros Hne. destruct (py_eq st (JStr "Released")) eqn:Heq; [|done].
    by apply py_eq_JStr in Heq.
Qed.

End FieldMapping.

(** ** The HTTP accessor *)

Lemma is_none_false (v : json) : is_none v = false ↔ v ≠ JNull.
Proof. destruct v; simpl; split; congruence. Qed.

Lemma query_params_lookup (self : TheMovieDatabase)
    (params : gmap string json) (k : string) :
  query_params self params !! k
  = match params !! k with
    | Some v =>
        if is_none v
        then (if decide (k = "api_key")
              then Some (JStr (api_key self)) else None)
        else Some v
    | None =>
        if decide (k = "api_key") then Some (JStr (api_key self)) else None
    end.
Proof.
  unfold query_params. rewrite lookup_union, map_lookup_filter.
  assert (({["api_key" := JStr (api_key self)]} : gmap string json) !! k
          = if decide (k = "api_key")
            then Some (JStr (api_key self)) else None) as ->.
  { case_decide as Hk.
    - subst k. apply lookup_singleton_eq.
    - by apply lookup_singleton_ne. }
  destruct (params !! k) as [v|]; simpl.
  - destruct (is_none v) eqn:Hv; simpl; by case_decide.
  - by case_decide.
Qed.

(** C7, as the code has it.  The query that [get] sends holds no absent
    value; it keeps every entry of the mapping whose value is not absent
    and drops the others; it always has an [api_key] entry, which is the
    static key unless the mapping itself gives [api_key] a value, and
    that value is then the one sent.  [get] raises the transport's error
    with the status when the status is 400 or above, raises what the
    transport raises, and otherwise returns the decoded body. *)
Theorem get_contract (self : TheMovieDatabase) (path : string)
    (params : gmap string json) :
  let q := query_params self params in
  let url := base +:+ "/" +:+ path in
  (∀ k v, q !! k = Some v → v ≠ JNull)
  ∧ (∀ k v, params !! k = Some v → v ≠ JNull → q !! k = Some v)
  ∧ (∀ k, k ≠ "api_key" →
       params !! k = None ∨ params !! k = Some JNull → q !! k = None)
  ∧ is_Some (q !! "api_key")
  ∧ (params !! "api_key" = None ∨ params !! "api_key" = Some JNull →
     q !! "api_key" = Some (JStr (api_key self)))
  ∧ (∀ r, _client self url q = Ok r → 400 ≤ status r →
       get self path params = Err (ClientResponseError (status r)))
  ∧ (∀ r, _client self url q = Ok r → status r < 400 →
       get self path params = json_body r)
  ∧ (∀ e, _client self url q = Err e → get self path params = Err e).
Proof.
  intros q url. subst q url.
  split; [|split; [|split; [|split; [|split; [|split; [|split]]]]]].
  - intros k v. rewrite query_params_lookup.
    destruct (params !! k) as [v'|]; [destruct (is_none v') eqn:Hv|].
    + case_decide; [|done]. by intros [= <-].
    + intros [= <-]. by apply is_none_false.
    + case_decide; [|done]. by intros [= <-].
  - intros k v Hk Hv. rewrite query_params_lookup, Hk.
    apply is_none_false in Hv. by rewrite Hv.
  - intros k Hk [H|H]; rewrite query_params_lookup, H;
      by rewrite decide_False.
  - rewrite query_params_lookup.
    destruct (params !! "api_key") as [v|]; [destruct (is_none v)|];
      rewrite ?decide_True by done; eauto.
  - intros [H|H]; rewrite query_params_lookup, H;
      by rewrite decide_True.
  - intros r Hr Hs. unfold get. rewrite Hr, bind_Ok_l.
    unfold raise_for_status. by rewrite bool_decide_eq_true_2.
  - intros r Hr Hs. unfold get. rewrite Hr, bind_Ok_l.
    unfold raise_for_status. rewrite bool_decide_eq_false_2 by lia. done.
  - intros e He. unfold get. by rewrite He.
Qed.

(** ** The identification operations *)

Lemma locale_set_strings (L : list string) :
  locale_set (JStr <$> L) = list_to_set (KStr <$> L).
Proof.
  unfold locale_set. f_equal.
  induction L as [|k L IH]; simpl; [done|]. by f_equal.
Qed.

Lemma locale_set_add_language (ol : json) (L : list json) (key : pykey) :
  to_key ol = Some key →
  locale_set (add_language ol L) = locale_set L ∪ {[ key ]}.
Proof.
  intros Hk. unfold add_language, locale_set.
  destruct (py_in ol L) eqn:Hin.
  - pose proof (py_in_to_key _ _ _ Hin Hk). set_solver.
  - rewrite omap_app, list_to_set_app_L. simpl. rewrite Hk. set_solver.
Qed.

Lemma add_language_hashable (ol : json) (L : list json) :
  Forall (λ k, is_Some (to_key k)) (add_language ol L) →
  is_Some (to_key ol).
Proof.
  unfold add_language. destruct (py_in ol L) eqn:Hin.
  - intros HF. apply existsb_exists in Hin as (y & Hy & Heq).
    rewrite (py_eq_to_key _ _ Heq).
    rewrite Forall_forall in HF. apply HF. by apply list_elem_of_In.
  - rewrite Forall_app, Forall_singleton. by intros [_ ?].
Qed.

Section Operations.
Context {rt : PyRuntime}.
Implicit Types (self : TheMovieDatabase) (finish : nat → nat).
Implicit Types (L : list json).

(** C2, as the code has it.  When [identify_movie] returns a movie, the
    keys of its [translations] are exactly the requested locales together
    with the original language that the search result declares; it is a
    set, so a
    locale requested twice, or an original language that was requested,
    counts once, and it is not empty.  When the detail payload agrees
    with the search result on the original language, this is the
    original language of the returned movie. *)
Theorem identify_movie_locales self finish (name : string)
    (year : option Z) L L' (m : Movie) :
  identify_movie self finish name year L = (L', Ok m) →
  ∃ movie_id ol key,
    first_hit self "search/movie" (movie_search name year)
    = Ok (movie_id, ol)
    ∧ to_key ol = Some key
    ∧ dom (translations m) = locale_set L ∪ {[ key ]}
    ∧ dom (translations m) ≠ ∅
    ∧ (py_eq (Movie.original_language (fields m)) ol = true →
       dom (translations m)
       = locale_set L ∪ locale_set [Movie.original_language (fields m)]).
Proof.
  unfold identify_movie.
  destruct (first_hit _ _ _) as [[movie_id ol]|e]; [|done].
  intros [= <- Hp].
  apply process_translations_Ok in Hp as (k0 & e0 & _ & _ & _ & Hd & HF).
  destruct (add_language_hashable _ _ HF) as [key Hkey].
  exists movie_id, ol, key. split; [done|]. split; [done|].
  rewrite Hd, (locale_set_add_language _ _ _ Hkey).
  split; [done|]. split; [set_solver|].
  intros Heq. apply py_eq_to_key in Heq.
  unfold locale_set at 3. simpl. rewrite Heq, Hkey. set_solver.
Qed.

(** C5, as the code has it.  When the search returns an empty result
    list, [identify_movie] and [identify_episode] raise [IndexError], the
    failure of taking the first element of the empty list, and leave the
    language list as it was. *)
Theorem empty_search_raises_IndexError :
  (∀ self finish (name : string) (year : option Z) L r,
     get self "search/movie" (movie_search name year) = Ok r →
     getitem r "results" = Ok (JList []) →
     identify_movie self finish name year L = (L, Err IndexError))
  ∧ (∀ (Episode : Type) self (name : string)
       (season episode absolute : option Z) L r,
       get self "search/tv" (tv_search name) = Ok r →
       getitem r "results" = Ok (JList []) →
       identify_episode (Episode := Episode) self name season episode
         absolute L
       = (L, Err IndexError)).
Proof.
  split.
  - intros self finish name year L r Hget Hres.
    unfold identify_movie, first_hit.
    by rewrite Hget, bind_Ok_l, Hres.
  - intros Episode self name season episode absolute L r Hget Hres.
    unfold identify_episode, first_hit.
    by rewrite Hget, bind_Ok_l, Hres.
Qed.


(** C4 fails on the code: what [identify_episode] returns, when it
    returns, is never an episode.  It is the coroutine object of the
    aggregation, not awaited, and awaiting it yields a [Movie] built from
    the movie detail of the identifier that the television search
    returned. *)
Theorem identify_episode_returns_coroutine (Episode : Type) self
    (name : string) (season episode absolute : option Z) L L'
    (v : returned Episode) :
  identify_episode self name season episode absolute L = (L', Ok v) →
  is_episode v = false
  ∧ ∃ show_id ol,
      first_hit self "search/tv" (tv_search name) = Ok (show_id, ol)
      ∧ v = RCoroutine
              (λ finish,
                 process_translations finish
                   (movie_for_language self show_id) L').
Proof.
  unfold identify_episode.
  destruct (first_hit _ _ _) as [[show_id ol]|e]; [|done].
  intros [= <- <-]. split; [done|]. by exists show_id, ol.
Qed.

End Operations.

(** * Further properties of the field mapping *)

Lemma comprehension_Ok {A B} (f : A → result (option B)) xs ys :
  comprehension f xs = Ok ys →
  ∃ os, Forall2 (λ x o, f x = Ok o) xs os ∧ ys = omap (λ o, o) os.
Proof.
  revert ys. induction xs as [|x xs IH]; intros ys.
  - intros [= <-]. by exists [].
  - rewrite comprehension_cons. intros H. invert_binds H.
    injection H as <-. destruct (IH _ E0) as (os & HF & ->).
    exists (v :: os). split; [by constructor|]. by destruct v.
Qed.

Lemma comprehension_Forall2 {A B} (f : A → result (option B)) xs os :
  Forall2 (λ x o, f x = Ok o) xs os →
  comprehension f xs = Ok (omap (λ o, o) os).
Proof.
  induction 1 as [|x o xs os Hx _ IH]; [done|].
  rewrite comprehension_cons, Hx, bind_Ok_l, IH, bind_Ok_l.
  by destruct o.
Qed.

Lemma contains_JObj (o : gmap string json) (k : string) :
  contains (JObj o) k = Ok (bool_decide (is_Some (o !! k))).
Proof. done. Qed.

Lemma bind_cong {A B} (c c' : result A) (f g : A → result B) :
  c = c' → (∀ a, f a = g a) → c ≫= f = c' ≫= g.
Proof. intros <- Hfg. destruct c as [a|e]; [apply Hfg | done]. Qed.

Lemma comprehension_ext {A B} (f g : A → result (option B)) (l : list A) :
  (∀ x, f x = g x) → comprehension f l = comprehension g l.
Proof.
  intros Hfg. induction l as [|x l IH]; [done|].
  by rewrite !comprehension_cons, Hfg, IH.
Qed.

Lemma Forall2_omap_elem {A B} (R : A → option B → Prop) xs os :
  Forall2 R xs os →
  Forall (λ u, ∃ x, x ∈ xs ∧ R x (Some u)) (omap (λ o, o) os).
Proof.
  induction 1 as [|x o xs os Hx _ IH]; [constructor|].
  assert (Forall (λ u, ∃ x0, x0 ∈ x :: xs ∧ R x0 (Some u))
            (omap (λ o, o) os)) as IH'.
  { eapply Forall_impl; [exact IH|].
    intros u (x0 & Hin & Hr). exists x0. split; [by right | done]. }
  rewrite omap_cons_match. destruct o as [u|]; [|done].
  constructor; [|done]. exists x. split; [left | done].
Qed.

Section MoreFieldMapping.
Context {rt : PyRuntime}.

(** X1.  A production company with a name and an identifier becomes a
    studio with that name, one external identifier under
    "themoviedatabase" whose link ends in the formatted identifier, and a
    logo decided by the presence of the [logo_path] key alone: a null
    [logo_path] is formatted like any value, and gives a URL ending in
    "None".  Without a name, or without an identifier, [KeyError] is
    raised. *)
Theorem to_studio_company (o : gmap string json) :
  (∀ n i,
     o !! "name" = Some n → o !! "id" = Some i →
     to_studio (JObj o)
     = Ok (Studio.mk n
             (match o !! "logo_path" with
              | Some p => [image_base +:+ py_str p]
              | None => []
              end)
             {[ "themoviedatabase" :=
                  mkMetadataID i
                    ("https://www.themoviedb.org/company/" +:+ py_str i) ]}))
  ∧ (∀ n i,
       o !! "name" = Some n → o !! "id" = Some i →
       o !! "logo_path" = Some JNull →
       Studio.logos <$> to_studio (JObj o)
       = Ok ["https://image.tmdb.org/t/p/originalNone"])
  ∧ (o !! "name" = None →
     to_studio (JObj o) = Err (KeyError (KStr "name")))
  ∧ (∀ n, o !! "name" = Some n → o !! "id" = None →
       to_studio (JObj o) = Err (KeyError (KStr "id"))).
Proof.
  assert (∀ n i,
     o !! "name" = Some n → o !! "id" = Some i →
     to_studio (JObj o)
     = Ok (Studio.mk n
             (match o !! "logo_path" with
              | Some p => [image_base +:+ py_str p]
              | None => []
              end)
             {[ "themoviedatabase" :=
                  mkMetadataID i
                    ("https://www.themoviedb.org/company/" +:+ py_str i) ]}))
    as Hmain.
  { intros n i Hn Hi. unfold to_studio.
    rewrite (getitem_Some _ _ _ Hn), bind_Ok_l, contains_JObj, bind_Ok_l.
    rewrite !(getitem_Some _ _ _ Hi).
    destruct (o !! "logo_path") as [p|] eqn:Hp.
    - rewrite bool_decide_eq_true_2 by eauto.
      by rewrite (getitem_Some _ _ _ Hp).
    - rewrite bool_decide_eq_false_2 by (by intros [? ?]). done. }
  split; [exact Hmain|]. split; [|split].
  - intros n i Hn Hi Hp. rewrite (Hmain n i Hn Hi), Hp. done.
  - intros Hn. unfold to_studio. by rewrite (getitem_None _ _ Hn).
  - intros n Hn Hi. unfold to_studio.
    rewrite (getitem_Some _ _ _ Hn), bind_Ok_l, contains_JObj, bind_Ok_l.
    rewrite (getitem_None _ _ Hi).
    destruct (o !! "logo_path") as [p|] eqn:Hp.
    + rewrite bool_decide_eq_true_2 by eauto.
      by rewrite (getitem_Some _ _ _ Hp).
    + rewrite bool_decide_eq_false_2 by (by intros [? ?]). done.
Qed.

Lemma trailer_of_Some (x : json) (u : string) :
  trailer_of x = Ok (Some u) →
  ∃ o k, x = JObj o
         ∧ o !! "type" = Some (JStr "Trailer")
         ∧ o !! "site" = Some (JStr "YouTube")
         ∧ o !! "key" = Some k
         ∧ u = "https://www.youtube.com/watch?v" +:+ py_str k.
Proof.
  unfold trailer_of. destruct x as [| | | | |o]; try done.
  unfold getitem.
  destruct (o !! "type") as [ty|] eqn:Ety; [|done]. rewrite bind_Ok_l.
  destruct (py_eq ty (JStr "Trailer")) eqn:Hty; [|done].
  apply py_eq_JStr in Hty as ->.
  destruct (o !! "site") as [site|] eqn:Esite; [|done]. rewrite bind_Ok_l.
  destruct (py_eq site (JStr "YouTube")) eqn:Hsite; [|done].
  apply py_eq_JStr in Hsite as ->.
  destruct (o !! "key") as [k|] eqn:Ekey; [|done]. rewrite bind_Ok_l.
  intros [= <-]. by exists o, k.
Qed.

Lemma trailer_of_skipped_type (o : gmap string json) (ty : json) :
  o !! "type" = Some ty → ty ≠ JStr "Trailer" →
  trailer_of (JObj o) = Ok None.
Proof.
  intros Hty Hne. unfold trailer_of.
  rewrite (getitem_Some _ _ _ Hty), bind_Ok_l.
  destruct (py_eq ty (JStr "Trailer")) eqn:Heq; [|done].
  by apply py_eq_JStr in Heq.
Qed.

Lemma trailer_of_skipped_site (o : gmap string json) (site : json) :
  o !! "type" = Some (JStr "Trailer") →
  o !! "site" = Some site → site ≠ JStr "YouTube" →
  trailer_of (JObj o) = Ok None.
Proof.
  intros Hty Hsite Hne. unfold trailer_of.
  rewrite (getitem_Some _ _ _ Hty), bind_Ok_l.
  rewrite (getitem_Some _ _ _ Hsite).
  replace (py_eq (JStr "Trailer") (JStr "Trailer")) with true by done.
  rewrite bind_Ok_l.
  destruct (py_eq site (JStr "YouTube")) eqn:Heq; [|done].
  by apply py_eq_JStr in Heq.
Qed.

Lemma trailer_of_kept (o : gmap string json) (k : json) :
  o !! "type" = Some (JStr "Trailer") →
  o !! "site" = Some (JStr "YouTube") →
  o !! "key" = Some k →
  trailer_of (JObj o)
  = Ok (Some ("https://www.youtube.com/watch?v" +:+ py_str k)).
Proof.
  intros Hty Hsite Hk. unfold trailer_of.
  rewrite (getitem_Some _ _ _ Hty), bind_Ok_l.
  rewrite (getitem_Some _ _ _ Hsite), (getitem_Some _ _ _ Hk).
  replace (py_eq (JStr "Trailer") (JStr "Trailer")) with true by done.
  rewrite bind_Ok_l.
  by replace (py_eq (JStr "YouTube") (JStr "YouTube")) with true by done.
Qed.

(** X2.  The trailers of a payload are, in order, one URL for each video
    entry whose type is "Trailer" and whose site is "YouTube", the fixed
    watch prefix followed by that entry's own key; an entry of another
    type is skipped without its [site] or [key] being read, and a trailer
    hosted elsewhere without its [key] being read.  Conversely every URL
    returned comes from such an entry of the payload. *)
Theorem trailers_are_youtube_trailers :
  (∀ (j v : json) (entries : list (gmap string json))
     (rs : list (option string)),
     getitem j "videos" = Ok v →
     getitem v "results" = Ok (JList (JObj <$> entries)) →
     Forall2
       (λ (o : gmap string json) (r : option string),
          (∃ ty, o !! "type" = Some ty ∧ ty ≠ JStr "Trailer" ∧ r = None)
          ∨ (∃ site,
               o !! "type" = Some (JStr "Trailer")
               ∧ o !! "site" = Some site ∧ site ≠ JStr "YouTube"
               ∧ r = None)
          ∨ (∃ k,
               o !! "type" = Some (JStr "Trailer")
               ∧ o !! "site" = Some (JStr "YouTube")
               ∧ o !! "key" = Some k
               ∧ r = Some ("https://www.youtube.com/watch?v" +:+ py_str k)))
       entries rs →
     trailers_of j = Ok (omap (λ r, r) rs))
  ∧ (∀ j urls,
       trailers_of j = Ok urls →
       ∃ v r xs,
         getitem j "videos" = Ok v
         ∧ getitem v "results" = Ok r
         ∧ py_iter r = Ok xs
         ∧ Forall (λ u, ∃ (o : gmap string json) k,
                     JObj o ∈ xs
                     ∧ o !! "type" = Some (JStr "Trailer")
                     ∧ o !! "site" = Some (JStr "YouTube")
                     ∧ o !! "key" = Some k
                     ∧ u = "https://www.youtube.com/watch?v" +:+ py_str k)
             urls)
  ∧ (∀ (o : gmap string json) ty,
       o !! "type" = Some ty → ty ≠ JStr "Trailer" →
       trailer_of (JObj o) = Ok None)
  ∧ (∀ (o : gmap string json) site,
       o !! "type" = Some (JStr "Trailer") →
       o !! "site" = Some site → site ≠ JStr "YouTube" →
       trailer_of (JObj o) = Ok None).
Proof.
  split; [|split; [|split]].
  - intros j v entries rs Hv Hr HF. unfold trailers_of.
    rewrite Hv, bind_Ok_l, Hr, bind_Ok_l. unfold py_iter.
    rewrite bind_Ok_l. apply comprehension_Forall2. clear Hv Hr.
    induction HF as [|o r entries rs Ho _ IH]; [constructor|].
    rewrite fmap_cons. constructor; [|exact IH].
    destruct Ho as [(ty & Hty & Hne & ->)
                   |[(site & Hty & Hsite & Hne & ->)
                    |(k & Hty & Hsite & Hk & ->)]].
    + by eapply trailer_of_skipped_type.
    + by eapply trailer_of_skipped_site.
    + by apply trailer_of_kept.
  - intros j urls. unfold trailers_of. intros H. invert_binds H.
    apply comprehension_Ok in H as (os & HF & ->).
    eexists _, _, _. split; [done|]. split; [done|]. split; [done|].
    eapply Forall_impl; [exact (Forall2_omap_elem _ _ _ HF)|].
    intros u (x & Hin & Hx). cbv beta in Hx.
    destruct (trailer_of_Some _ _ Hx) as (o' & k & -> & ? & ? & ? & ?).
    by exists o', k.
  - intros o ty. apply trailer_of_skipped_type.
  - intros o site. apply trailer_of_skipped_site.
Qed.

Lemma getitem_agree (o o' : gmap string json) (k : string) :
  (∀ k', k' ≠ "in_production" → o' !! k' = o !! k') →
  k ≠ "in_production" →
  getitem (JObj o') k = getitem (JObj o) k.
Proof. intros Hag Hk. unfold getitem. by rewrite (Hag k Hk). Qed.

(** Two payloads that differ at most in [in_production] and whose status
    is "Released" are mapped alike. *)
Lemma to_show_released_agree (lng : json) (o o' : gmap string json) :
  o !! "status" = Some (JStr "Released") →
  (∀ k, k ≠ "in_production" → o' !! k = o !! k) →
  to_show lng (JObj o') = to_show lng (JObj o).
Proof.
  intros Hst Hag.
  assert (o' !! "status" = Some (JStr "Released")) as Hst'
    by (by rewrite Hag).
  unfold to_show, subitems, external_ids, images_of, trailers_of.
  rewrite (getitem_Some _ _ _ Hst), (getitem_Some _ _ _ Hst').
  repeat first
    [ reflexivity
    | apply (getitem_agree _ _ _ Hag); done
    | apply bind_cong; [|intros ?]
    | apply comprehension_ext; intros ? ].
Qed.

(** X3.  The status of a constructed show is never [PLANNED]: it is
    [FINISHED] when the remote status is "Released", and otherwise
    [AIRING] when [in_production] is truthy and [FINISHED] when it is
    not.  When the remote status is "Released", [in_production] is not
    read: the mapping gives the same outcome whether the key is there or
    not, and whatever its value.  With any other status a payload without
    [in_production] leaves no show. *)
Theorem show_status_never_planned :
  (∀ (lng payload : json) (s : Show),
     to_show lng payload = Ok s →
     Show.status (fields s) ≠ ShowStatus.PLANNED
     ∧ ∃ st, getitem payload "status" = Ok st
             ∧ (st = JStr "Released" →
                Show.status (fields s) = ShowStatus.FINISHED)
             ∧ (st ≠ JStr "Released" →
                ∃ p, getitem payload "in_production" = Ok p
                     ∧ Show.status (fields s)
                       = if truthy p then ShowStatus.AIRING
                         else ShowStatus.FINISHED))
  ∧ (∀ (lng : json) (o o' : gmap string json),
       o !! "status" = Some (JStr "Released") →
       (∀ k, k ≠ "in_production" → o' !! k = o !! k) →
       to_show lng (JObj o') = to_show lng (JObj o))
  ∧ (∀ (lng : json) (o : gmap string json) (st : json),
       o !! "status" = Some st → st ≠ JStr "Released" →
       o !! "in_production" = None →
       is_ok (to_show lng (JObj o)) = false).
Proof.
  assert (∀ (lng payload : json) (s : Show),
     to_show lng payload = Ok s →
     Show.status (fields s) ≠ ShowStatus.PLANNED
     ∧ ∃ st, getitem payload "status" = Ok st
             ∧ (st = JStr "Released" →
                Show.status (fields s) = ShowStatus.FINISHED)
             ∧ (st ≠ JStr "Released" →
                ∃ p, getitem payload "in_production" = Ok p
                     ∧ Show.status (fields s)
                       = if truthy p then ShowStatus.AIRING
                         else ShowStatus.FINISHED)) as Hinv.
  { intros lng payload s.
    unfold to_show. intros H. invert_binds H. injection H as <-. simpl.
    match goal with
    | E : (getitem payload "status" ≫= _) = Ok _ |- _ =>
        apply bind_Ok in E as (st & Hst & Hs)
    end.
    destruct (py_eq st (JStr "Released")) eqn:Heq.
    - injection Hs as <-. split; [done|]. exists st. split; [done|].
      split; [done|]. intros Hne. by apply py_eq_JStr in Heq.
    - apply bind_Ok in Hs as (p & Hp & [= <-]).
      split; [by destruct (truthy p)|]. exists st. split; [done|]. split.
      + intros ->. done.
      + intros _. by exists p. }
  split; [exact Hinv|]. split; [apply to_show_released_agree|].
  intros lng o st Hst Hne Hnone.
  destruct (to_show lng (JObj o)) as [s|e] eqn:Hs; [|done].
  destruct (Hinv _ _ _ Hs) as (_ & st' & Hst' & _ & Hp).
  rewrite (getitem_Some _ _ _ Hst) in Hst'. injection Hst' as <-.
  destruct (Hp Hne) as (p & Hp' & _).
  by rewrite (getitem_None _ _ Hnone) in Hp'.
Qed.

Lemma genre_of_key (o : gmap string json) (c : json) (k : pykey) :
  o !! "id" = Some c → to_key c = Some k →
  genre_of (JObj o) = Ok (genre_map !! k).
Proof.
  intros Ho Hk. apply hash_key_Ok in Hk. unfold genre_of.
  rewrite !(getitem_Some _ _ _ Ho), bind_Ok_l, !Hk, bind_Ok_l.
  destruct (genre_map !! k) as [g|] eqn:Hg; [|done].
  rewrite bind_Ok_l. cbv beta. rewrite Hk, bind_Ok_l. cbv beta.
  by rewrite Hg.
Qed.

(** X4.  On entries whose [id] is any hashable value, the genre
    comprehension raises nothing and returns the images of the ids that
    are keys of the table: a string or a null id is dropped like an
    unknown code.  An entry whose [id] is a list or a dict makes it raise
    [TypeError], and an entry without [id] makes it raise [KeyError]. *)
Theorem to_genres_hashable_ids :
  (∀ (entries : list (gmap string json)) (keys : list pykey),
     Forall2 (λ o k, ∃ c, o !! "id" = Some c ∧ to_key c = Some k)
       entries keys →
     to_genres (JList (JObj <$> entries))
     = Ok (omap (genre_map !!.) keys))
  ∧ (∀ (o : gmap string json) c rest,
       o !! "id" = Some c → to_key c = None →
       to_genres (JList (JObj o :: rest)) = Err TypeError)
  ∧ (∀ (o : gmap string json) rest,
       o !! "id" = None →
       to_genres (JList (JObj o :: rest)) = Err (KeyError (KStr "id"))).
Proof.
  split; [|split].
  - intros entries keys HF. unfold to_genres, py_iter. rewrite bind_Ok_l.
    induction HF as [|o k entries keys (c & Hc & Hk) _ IH]; [done|].
    rewrite fmap_cons, comprehension_cons, IH, omap_cons_match.
    rewrite (genre_of_key _ _ _ Hc Hk), !bind_Ok_l.
    by destruct (genre_map !! k).
  - intros o c rest Hc Hk. unfold to_genres, py_iter.
    rewrite bind_Ok_l, comprehension_cons. unfold genre_of.
    rewrite (getitem_Some _ _ _ Hc), bind_Ok_l. unfold hash_key.
    by rewrite Hk.
  - intros o rest Hc. unfold to_genres, py_iter.
    rewrite bind_Ok_l, comprehension_cons. unfold genre_of.
    by rewrite (getitem_None _ _ Hc).
Qed.

End MoreFieldMapping.

(** Rewrites, in the goal, every computation whose outcome a hypothesis
    records. *)
Ltac replay_binds :=
  repeat match goal with
         | E : ?c = Ok _ |- context [?c ≫= _] =>
             rewrite E, bind_Ok_l; cbv beta
         end.

Section MovieRecords.
Context {rt : PyRuntime}.

(** X5.  The locale handed to the movie mapping decides the key of the
    single translation and nothing else: a movie built for one locale
    carries exactly one translation, under that locale, and the same
    payload mapped for any other hashable locale gives the same fields
    and the same translation under the other key. *)
Theorem to_movie_locale_is_the_key (lng lng' payload : json) (m : Movie)
    (k' : pykey) :
  to_movie lng payload = Ok m →
  to_key lng' = Some k' →
  ∃ k t,
    to_key lng = Some k
    ∧ translations m = {[ k := t ]}
    ∧ to_movie lng' payload = Ok (Entity (fields m) {[ k' := t ]}).
Proof.
  intros H Hk'. apply hash_key_Ok in Hk'.
  unfold to_movie in H |- *. invert_binds H. injection H as <-.
  match goal with
  | E : hash_key lng = Ok ?k |- _ =>
      apply hash_key_Ok in E; exists k
  end.
  eexists. split; [done|]. split; [done|].
  replay_binds. done.
Qed.

(** X6.  A movie is built only from a payload whose [release_date] is a
    string that the date parser accepts, and carries the parsed date; a
    null release date, or one that does not parse, leaves no movie. *)
Theorem movie_needs_release_date (lng payload : json) :
  (∀ m : Movie,
     to_movie lng payload = Ok m →
     ∃ s, getitem payload "release_date" = Ok (JStr s)
          ∧ strptime_ymd s = Some (Movie.release_date (fields m)))
  ∧ (∀ d,
       getitem payload "release_date" = Ok d →
       (∀ s, d = JStr s → strptime_ymd s = None) →
       is_ok (to_movie lng payload) = false).
Proof.
  assert (∀ m : Movie,
     to_movie lng payload = Ok m →
     ∃ s, getitem payload "release_date" = Ok (JStr s)
          ∧ strptime_ymd s = Some (Movie.release_date (fields m))) as Hinv.
  { intros m. unfold to_movie. intros H. invert_binds H.
    injection H as <-. simpl.
    match goal with
    | E : (getitem payload "release_date" ≫= _) = Ok _ |- _ =>
        apply bind_Ok in E as (d & Hd & Hp)
    end.
    unfold parse_date in Hp. destruct d as [| | |s| |]; try done.
    destruct (strptime_ymd s) as [d|] eqn:Hs; [|done].
    injection Hp as <-. by exists s. }
  split; [exact Hinv|].
  intros d Hd Hbad. destruct (to_movie lng payload) as [m|e] eqn:Hm; [|done].
  destruct (Hinv m eq_refl) as (s & Hs & Hparse).
  rewrite Hd in Hs. injection Hs as ->.
  by rewrite (Hbad s eq_refl) in Hparse.
Qed.

(** X7.  The external identifiers of a constructed movie are exactly two,
    under "themoviedatabase" and "imdb": the payload's [id] with the
    catalog link of that id, and the payload's [imdb_id] with the link of
    that title. *)
Theorem movie_external_ids (lng payload : json) (m : Movie) :
  to_movie lng payload = Ok m →
  ∃ i imdb,
    getitem payload "id" = Ok i
    ∧ getitem payload "imdb_id" = Ok imdb
    ∧ Movie.external_id (fields m)
      = {[ "themoviedatabase" :=
             mkMetadataID i
               ("https://www.themoviedb.org/movie/" +:+ py_str i);
           "imdb" :=
             mkMetadataID imdb
               ("https://www.imdb.com/title/" +:+ py_str imdb) ]}
    ∧ dom (Movie.external_id (fields m))
      = {[ "themoviedatabase"; "imdb" ]}.
Proof.
  unfold to_movie. intros H. invert_binds H. injection H as <-. simpl.
  match goal with
  | E : external_ids payload "movie" = Ok _ |- _ =>
      unfold external_ids in E; invert_binds E; injection E as <-
  end.
  repeat match goal with
         | E1 : ?c = Ok ?a, E2 : ?c = Ok ?b |- _ =>
             rewrite E1 in E2; injection E2 as <-
         end.
  eexists _, _. split; [done|]. split; [done|]. split; [done|].
  rewrite dom_insert_L, dom_singleton_L. set_solver.
Qed.

(** X8.  Every URL that [get_image] returns starts with the image base,
    and there are no more URLs than entries. *)
Theorem get_image_prefix (xs : list json) (urls : list string) :
  get_image (JList xs) = Ok urls →
  Forall (λ u, ∃ p, u = "https://image.tmdb.org/t/p/original" +:+ p) urls
  ∧ (length urls ≤ length xs)%nat.
Proof.
  unfold get_image, py_iter. rewrite bind_Ok_l.
  intros (os & HF & ->)%comprehension_Ok.
  induction HF as [|x o xs os Hx _ [IH1 IH2]]; [by split|].
  rewrite omap_cons_match. cbn [length].
  destruct o as [u|]; [|split; [done|lia]].
  cbn [length]. split; [|lia]. constructor; [|done].
  apply bind_Ok in Hx as (c & _ & Hx).
  destruct (truthy c); [|done].
  apply bind_Ok in Hx as (p & _ & [= <-]). by exists (py_str p).
Qed.

End MovieRecords.

(** * Further properties of the operations *)

Lemma py_eq_refl_hashable (j : json) :
  is_Some (to_key j) → py_eq j j = true.
Proof.
  destruct j; simpl; intros [? ?]; try done; by rewrite bool_decide_eq_true.
Qed.

Lemma py_in_strings (s : string) (L : list string) :
  py_in (JStr s) (JStr <$> L) = bool_decide (s ∈ L).
Proof.
  unfold py_in. induction L as [|k L IH]; [done|].
  rewrite fmap_cons. cbn [existsb]. rewrite IH.
  change (py_eq (JStr s) (JStr k)) with (bool_decide (s = k)).
  repeat case_bool_decide; simpl; try done; set_solver.
Qed.

Lemma add_language_strings (s : string) (L : list string) :
  add_language (JStr s) (JStr <$> L)
  = JStr <$> (if bool_decide (s ∈ L) then L else L ++ [s])%list.
Proof.
  unfold add_language. rewrite py_in_strings.
  case_bool_decide; [done|]. by rewrite fmap_app.
Qed.

Lemma add_language_idem (x : json) (l : list json) :
  is_Some (to_key x) →
  add_language x (add_language x l) = add_language x l.
Proof.
  intros Hx. unfold add_language at 2.
  destruct (py_in x l) eqn:Hin.
  - unfold add_language. by rewrite Hin.
  - assert (py_in x (l ++ [x]) = true) as Hin'.
    { unfold py_in. rewrite existsb_app. cbn [existsb].
      rewrite (py_eq_refl_hashable _ Hx). by destruct (existsb _ l). }
    unfold add_language. by rewrite Hin', Hin.
Qed.

Lemma get_rejected (self : TheMovieDatabase) (path : string)
    (params : gmap string json) (r : response) :
  _client self (base +:+ "/" +:+ path) (query_params self params) = Ok r →
  400 ≤ status r →
  get self path params = Err (ClientResponseError (status r)).
Proof.
  intros Hr Hs. unfold get. rewrite Hr, bind_Ok_l.
  unfold raise_for_status. by rewrite bool_decide_eq_true_2.
Qed.

Section MoreAggregator.
Context {B Tr : Type}.
Implicit Types (fetch : json → result (entity B Tr)) (finish : nat → nat).

Lemma merge_translations_lookups fetch (L : list string)
    (items : list (entity B Tr)) (acc tr : pydict Tr) :
  fetch <$> (JStr <$> L) = Ok <$> items →
  merge_translations acc (zip (JStr <$> L) items) = Ok tr →
  ∀ k, k ∈ L →
    ∃ e t, fetch (JStr k) = Ok e ∧ translations e !! KStr k = Some t.
Proof.
  revert items acc. induction L as [|k L IH]; intros items acc Hf Hm k' Hk'.
  - by apply elem_of_nil in Hk'.
  - destruct items as [|e items]; [done|].
    rewrite !fmap_cons in Hf. injection Hf as He Hf.
    rewrite fmap_cons in Hm. cbn [zip zip_with merge_translations] in Hm.
    apply bind_Ok in Hm as (key & [= <-] & Hm).
    apply bind_Ok in Hm as (t & Ht & Hm).
    apply elem_of_cons in Hk' as [->|Hk'].
    + exists e, t. split; [done|].
      by destruct (translations e !! KStr k) as [t'|]; [injection Ht as ->|].
    + by eapply IH.
Qed.

(** What a successful aggregation over string locales tells about each
    locale. *)
Lemma process_translations_strings finish fetch (L : list string) out :
  process_translations finish fetch (JStr <$> L) = Ok out →
  (∃ k0 e0, L !! 0%nat = Some k0 ∧ fetch (JStr k0) = Ok e0
            ∧ fields out = fields e0)
  ∧ ∀ k, k ∈ L →
      ∃ e t, fetch (JStr k) = Ok e
             ∧ translations e !! KStr k = Some t
             ∧ translations out !! KStr k = Some t.
Proof.
  intros Hp. pose proof Hp as Hp'.
  apply process_translations_Ok in Hp' as (j0 & e0 & Hj0 & He0 & Hf & _).
  split.
  { destruct L as [|k0 L]; [done|]. injection Hj0 as <-. by exists k0, e0. }
  unfold process_translations in Hp. invert_binds Hp. injection Hp as <-.
  rename v into items, v1 into tr. apply gather_Ok in E.
  pose proof (merge_translations_lookups _ _ _ _ _ E E1) as Hall.
  destruct (merge_translations_fetch fetch L ∅ Hall)
    as (es & tr' & Hes & Hm & _ & Hl & _).
  rewrite E in Hes. apply (f_equal ok_values) in Hes.
  rewrite !ok_values_fmap_Ok in Hes. subst es.
  rewrite E1 in Hm. injection Hm as <-.
  intros k Hk. destruct (Hall k Hk) as (e & t & He & Ht).
  destruct (Hl k Hk) as (e' & He' & Hlk).
  rewrite He in He'. injection He' as <-.
  exists e, t. split; [done|]. split; [done|]. simpl. by rewrite Hlk.
Qed.

End MoreAggregator.

Section MoreOperations.
Context {rt : PyRuntime}.
Implicit Types (self : TheMovieDatabase) (finish : nat → nat).
Implicit Types (L : list json).

Lemma to_movie_single (lng payload : json) (m : Movie) :
  to_movie lng payload = Ok m →
  ∃ k t, to_key lng = Some k ∧ translations m = {[ k := t ]}.
Proof.
  unfold to_movie. intros H. invert_binds H. injection H as <-.
  match goal with
  | E : hash_key lng = Ok ?k |- _ => apply hash_key_Ok in E; exists k
  end.
  by eexists.
Qed.

(** X9.  A second identification with the list left by a first one does
    not grow it again: once the original language (a hashable value) has
    been appended, the list stays as it is. *)
Theorem language_list_grows_once self finish finish' (name : string)
    (year : option Z) L movie_id ol :
  first_hit self "search/movie" (movie_search name year)
  = Ok (movie_id, ol) →
  is_Some (to_key ol) →
  let L1 := (identify_movie self finish name year L).1 in
  (identify_movie self finish' name year L1).1 = L1
  ∧ (length L1 ≤ S (length L))%nat
  ∧ L `prefix_of` L1.
Proof.
  intros Hhit Hk L1. subst L1. unfold identify_movie. rewrite Hhit.
  cbn [fst]. split; [by apply add_language_idem|].
  unfold add_language. destruct (py_in ol L).
  - split; [lia|done].
  - rewrite length_app. cbn [length]. split; [lia|].
    by apply prefix_app_r.
Qed.

(** X10.  A search answered with a status of 400 or above makes
    [identify_movie] and [identify_episode] raise the transport's error
    with that status, the caller's list untouched; a partial show without
    a "themoviedatabase" identifier makes [identify_show] raise
    [KeyError], the list untouched as well. *)
Theorem identification_fails_before_the_list_changes :
  (∀ self finish (name : string) (year : option Z) L r,
     _client self (base +:+ "/" +:+ "search/movie")
       (query_params self (movie_search name year)) = Ok r →
     400 ≤ status r →
     identify_movie self finish name year L
     = (L, Err (ClientResponseError (status r))))
  ∧ (∀ (Episode : Type) self (name : string)
       (season episode absolute : option Z) L r,
       _client self (base +:+ "/" +:+ "search/tv")
         (query_params self (tv_search name)) = Ok r →
       400 ≤ status r →
       identify_episode (Episode := Episode) self name season episode
         absolute L
       = (L, Err (ClientResponseError (status r))))
  ∧ (∀ self finish (show : PartialShow.t) L,
       PartialShow.external_id show !! "themoviedatabase" = None →
       identify_show self finish show L
       = (L, Err (KeyError (KStr "themoviedatabase")))).
Proof.
  split; [|split].
  - intros self finish name year L r Hr Hs.
    unfold identify_movie, first_hit.
    by rewrite (get_rejected _ _ _ _ Hr Hs).
  - intros Episode self name season episode absolute L r Hr Hs.
    unfold identify_episode, first_hit.
    by rewrite (get_rejected _ _ _ _ Hr Hs).
  - intros self finish show L Hid. unfold identify_show. by rewrite Hid.
Qed.

(** X11.  When the detail request of one locale of the extended list is
    answered with a status of 400 or above, [identify_movie] returns no
    movie, under every completion order, although the caller's list has
    already been extended. *)
Theorem one_rejected_locale_fails_the_movie self finish (name : string)
    (year : option Z) L movie_id ol (k : json) (r : response) :
  first_hit self "search/movie" (movie_search name year)
  = Ok (movie_id, ol) →
  k ∈ add_language ol L →
  _client self (base +:+ "/" +:+ ("/movie/" +:+ py_str movie_id))
    (query_params self
       {[ "language" := k; "append_to_response" := append_to_response ]})
  = Ok r →
  400 ≤ status r →
  (identify_movie self finish name year L).1 = add_language ol L
  ∧ is_ok (identify_movie self finish name year L).2 = false.
Proof.
  intros Hhit Hk Hr Hs. unfold identify_movie. rewrite Hhit. cbn [fst snd].
  split; [done|].
  assert (movie_for_language self movie_id k
          = Err (ClientResponseError (status r))) as Hfail.
  { unfold movie_for_language. by rewrite (get_rejected _ _ _ _ Hr Hs). }
  assert (Err (ClientResponseError (status r))
          ∈ movie_for_language self movie_id <$> add_language ol L) as Hin.
  { rewrite <- Hfail. by apply list_elem_of_fmap_2. }
  destruct (gather_Err finish _ _ Hin) as (e' & Hg & _).
  unfold process_translations. by rewrite Hg.
Qed.

(** X12.  With string locales and a string original language, a movie
    returned by [identify_movie] has the fields of the movie built for
    the first locale of the extended list, and, for every locale of that
    list, the translation of the movie built for that locale, which is
    the only translation that movie carries. *)
Theorem identify_movie_by_locale self finish (name : string)
    (year : option Z) (L : list string) movie_id (s : string) L'
    (m : Movie) :
  first_hit self "search/movie" (movie_search name year)
  = Ok (movie_id, JStr s) →
  identify_movie self finish name year (JStr <$> L) = (L', Ok m) →
  let Ls := (if bool_decide (s ∈ L) then L else L ++ [s])%list in
  L' = JStr <$> Ls
  ∧ (∃ k0 e0, Ls !! 0%nat = Some k0
              ∧ movie_for_language self movie_id (JStr k0) = Ok e0
              ∧ fields m = fields e0)
  ∧ ∀ k, k ∈ Ls →
      ∃ e t, movie_for_language self movie_id (JStr k) = Ok e
             ∧ translations e = {[ KStr k := t ]}
             ∧ translations m !! KStr k = Some t.
Proof.
  intros Hhit. unfold identify_movie. rewrite Hhit.
  rewrite add_language_strings. intros [= <- Hp].
  split; [done|].
  apply process_translations_strings in Hp as [Hbase Hall].
  split; [exact Hbase|].
  intros k Hk. destruct (Hall k Hk) as (e & t & He & Ht & Hm).
  exists e, t. split; [done|]. split; [|done].
  unfold movie_for_language in He. apply bind_Ok in He as (p & _ & He).
  apply to_movie_single in He as (key & t' & [= <-] & Htr).
  rewrite Htr in Ht |- *. rewrite lookup_singleton_eq in Ht.
  by injection Ht as ->.
Qed.

End MoreOperations.

Section Seasons.
Context {rt : PyRuntime}.
Implicit Types (self : TheMovieDatabase) (finish : nat → nat).

Lemma to_season_single (x lng sid : json) (se : Season) :
  to_season x lng sid = Ok se →
  ∃ k t, to_key lng = Some k
         ∧ translations se = {[ k := t ]}
         ∧ SeasonTranslation.thumbnails t = []
         ∧ Season.end_date (fields se) = None.
Proof.
  unfold to_season. intros H. invert_binds H. injection H as <-.
  match goal with
  | E : hash_key lng = Ok ?k |- _ => apply hash_key_Ok in E; exists k
  end.
  by eexists.
Qed.

Lemma to_show_seasons (lng payload : json) (s : Show) :
  to_show lng payload = Ok s →
  ∃ ss xs,
    getitem payload "seasons" = Ok ss
    ∧ py_iter ss = Ok xs
    ∧ Forall2 (λ x se, ∃ i, getitem payload "id" = Ok i
                            ∧ to_season x lng i = Ok se)
        xs (Show.seasons (fields s)).
Proof.
  unfold to_show. intros H. invert_binds H. injection H as <-. simpl.
  match goal with
  | E : (getitem payload "seasons" ≫= _) = Ok _ |- _ =>
      apply bind_Ok in E as (ss & Hss & E);
      apply bind_Ok in E as (xs & Hxs & E);
      apply comprehension_Ok in E as (os & HF & ->)
  end.
  exists ss, xs. split; [done|]. split; [done|].
  clear -HF. induction HF as [|x o xs os Hx _ IH]; [constructor|].
  apply bind_Ok in Hx as (i & Hi & Hx).
  apply bind_Ok in Hx as (se & Hse & [= <-]).
  rewrite omap_cons_match. constructor; [by exists i | done].
Qed.

(** X13.  A season summary with its number, a parsable air date, an
    identifier, a name and an overview becomes a season whose end date is
    absent, whose link is built from the show identifier and the season
    number, and whose single translation, under the given locale, has no
    thumbnails and a poster decided by the presence of the [poster_path]
    key alone. *)
Theorem to_season_summary (o : gmap string json) (lng sid : json)
    (n i nm ov : json) (s : string) (d : date) (k : pykey) :
  o !! "season_number" = Some n →
  o !! "air_date" = Some (JStr s) →
  strptime_ymd s = Some d →
  o !! "id" = Some i →
  o !! "name" = Some nm →
  o !! "overview" = Some ov →
  to_key lng = Some k →
  to_season (JObj o) lng sid
  = Ok (Entity
          (Season.mk n d None
             {[ "themoviedatabase" :=
                  mkMetadataID i
                    ("https://www.themoviedb.org/tv/" +:+ py_str sid
                       +:+ "/season/" +:+ py_str n) ]})
          {[ k := SeasonTranslation.mk nm ov
                    (match o !! "poster_path" with
                     | Some p => [image_base +:+ py_str p]
                     | None => []
                     end) [] ]}).
Proof.
  intros Hn Hs Hd Hi Hnm Hov Hk. apply hash_key_Ok in Hk.
  unfold to_season.
  rewrite !(getitem_Some _ _ _ Hn), (getitem_Some _ _ _ Hs),
    (getitem_Some _ _ _ Hi), (getitem_Some _ _ _ Hnm),
    (getitem_Some _ _ _ Hov), contains_JObj, Hk.
  rewrite !bind_Ok_l. unfold parse_date. rewrite Hd, !bind_Ok_l.
  destruct (o !! "poster_path") as [p|] eqn:Hp.
  - rewrite bool_decide_eq_true_2 by eauto.
    by rewrite (getitem_Some _ _ _ Hp).
  - by rewrite bool_decide_eq_false_2 by (by intros [? ?]).
Qed.

(** X14.  In a show returned by [identify_show], the translations of the
    show itself cover every locale of the extended list, while every
    season carries a single translation, under the first locale of that
    list, and no end date. *)
Theorem show_seasons_first_locale_only self finish
    (show : PartialShow.t) (L L' : list json) (s : Show) :
  identify_show self finish show L = (L', Ok s) →
  dom (translations s) = locale_set L'
  ∧ ∃ k0 key,
      L' !! 0%nat = Some k0
      ∧ to_key k0 = Some key
      ∧ Forall (λ se : Season,
                  dom (translations se) = {[ key ]}
                  ∧ Season.end_date (fields se) = None)
          (Show.seasons (fields s)).
Proof.
  unfold identify_show.
  destruct (PartialShow.external_id show !! "themoviedatabase")
    as [mid|]; [|done].
  intros [= <- Hp].
  apply process_translations_Ok in Hp as (k0 & e0 & Hk0 & He0 & Hf & Hd & HF).
  split; [done|].
  rewrite Forall_forall in HF.
  destruct (HF k0) as [key Hkey].
  { by eapply list_elem_of_lookup_2. }
  exists k0, key. split; [done|]. split; [done|]. rewrite Hf.
  unfold show_for_language in He0. apply bind_Ok in He0 as (p & _ & He0).
  apply to_show_seasons in He0 as (ss & xs & _ & _ & H2).
  induction H2 as [|x se xs ses (i & _ & Hse) _ IH]; [constructor|].
  constructor; [|done].
  apply to_season_single in Hse as (k & t & Hk & Htr & _ & Hend).
  rewrite Hkey in Hk. injection Hk as <-.
  by rewrite Htr, dom_singleton_L.
Qed.

End Seasons.

(** X15.  What the three requests send: the search for a movie sends the
    key and the name, and the year only when one is given; the search for
    a show sends the key and the name; a detail request sends the key,
    the list of appended sections, and the locale unless the locale is
    [None]. *)
Theorem request_queries (self : TheMovieDatabase) (name : string) :
  (∀ y : Z,
     query_params self (movie_search name (Some y))
     = {[ "api_key" := JStr (api_key self); "query" := JStr name;
          "year" := JInt y ]})
  ∧ query_params self (movie_search name None)
    = {[ "api_key" := JStr (api_key self); "query" := JStr name ]}
  ∧ query_params self (tv_search name)
    = {[ "api_key" := JStr (api_key self); "query" := JStr name ]}
  ∧ (∀ lng : json,
       query_params self
         {[ "language" := lng; "append_to_response" := append_to_response ]}
       = if is_none lng
         then {[ "api_key" := JStr (api_key self);
                 "append_to_response" := append_to_response ]}
         else {[ "api_key" := JStr (api_key self);
                 "append_to_response" := append_to_response;
                 "language" := lng ]}).
Proof.
  split; [|split; [|split]].
  - intros y. apply map_eq. intros k. rewrite query_params_lookup.
    unfold movie_search, opt_int.
    repeat (rewrite lookup_insert || rewrite lookup_singleton).
    repeat case_decide; subst; simpl; try done.
  - apply map_eq. intros k. rewrite query_params_lookup.
    unfold movie_search, opt_int.
    repeat (rewrite lookup_insert || rewrite lookup_singleton).
    repeat case_decide; subst; simpl; try done.
  - apply map_eq. intros k. rewrite query_params_lookup.
    unfold tv_search.
    repeat (rewrite lookup_insert || rewrite lookup_singleton).
    repeat case_decide; subst; simpl; try done.
  - intros lng. apply map_eq. intros k. rewrite query_params_lookup.
    destruct (is_none lng) eqn:Hl;
      repeat (rewrite lookup_insert || rewrite lookup_singleton);
      repeat case_decide; subst; simpl; rewrite ?Hl; try done.
Qed.

Section MoreRecords.
Context {rt : PyRuntime}.
Implicit Types (self : TheMovieDatabase) (finish : nat → nat).

Lemma parse_date_Ok (j : json) (d : date) :
  parse_date j = Ok d → ∃ s, j = JStr s ∧ strptime_ymd s = Some d.
Proof.
  unfold parse_date. destruct j as [| | |s| |]; try done.
  destruct (strptime_ymd s) as [d'|] eqn:Hs; [|done].
  intros [= <-]. by exists s.
Qed.

Lemma to_season_air_date (x lng sid : json) (se : Season) :
  to_season x lng sid = Ok se →
  ∃ s, getitem x "air_date" = Ok (JStr s)
       ∧ strptime_ymd s = Some (Season.start_date (fields se)).
Proof.
  unfold to_season. intros H. invert_binds H. injection H as <-. simpl.
  match goal with
  | E : (getitem x "air_date" ≫= _) = Ok _ |- _ =>
      apply bind_Ok in E as (d & Hd & (s & -> & Hs)%parse_date_Ok)
  end.
  by exists s.
Qed.

(** X16.  A show is built only from a payload whose first and last air
    dates are strings that the date parser accepts and whose every season
    summary has such an air date: the seasons of the show are the season
    summaries, one for one and in order, and a single season without a
    parsable air date leaves no show. *)
Theorem show_needs_dates (lng payload : json) (s : Show) :
  to_show lng payload = Ok s →
  (∃ s1 s2,
     getitem payload "first_air_date" = Ok (JStr s1)
     ∧ strptime_ymd s1 = Some (Show.start_air (fields s))
     ∧ getitem payload "last_air_date" = Ok (JStr s2)
     ∧ strptime_ymd s2 = Some (Show.end_air (fields s)))
  ∧ ∃ ss xs,
      getitem payload "seasons" = Ok ss
      ∧ py_iter ss = Ok xs
      ∧ Forall2 (λ x (se : Season),
                   ∃ sd, getitem x "air_date" = Ok (JStr sd)
                         ∧ strptime_ymd sd
                           = Some (Season.start_date (fields se)))
          xs (Show.seasons (fields s)).
Proof.
  intros H. split.
  - unfold to_show in H. invert_binds H. injection H as <-. simpl.
    repeat match goal with
           | E : (getitem payload _ ≫= λ d, parse_date d) = Ok _ |- _ =>
               apply bind_Ok in E as (? & ? & (? & -> & ?)%parse_date_Ok)
           end.
    eauto 10.
  - destruct (to_show_seasons _ _ _ H) as (ss & xs & Hss & Hxs & HF).
    exists ss, xs. split; [done|]. split; [done|].
    clear -HF.
    induction HF as [|x se xs ses (i & _ & Hse) _ IH]; [constructor|].
    constructor; [|done]. by eapply to_season_air_date.
Qed.

Lemma subitems_Ok (j : json) (outer inner field : string) (vs : list json) :
  subitems j outer inner field = Ok vs →
  ∃ o i xs,
    getitem j outer = Ok o
    ∧ getitem o inner = Ok i
    ∧ py_iter i = Ok xs
    ∧ Forall2 (λ x v, getitem x field = Ok v) xs vs.
Proof.
  unfold subitems. intros H. invert_binds H.
  apply comprehension_Ok in H as (os & HF & ->).
  eexists _, _, _. split; [done|]. split; [done|]. split; [done|].
  clear -HF. induction HF as [|x o xs os Hx _ IH]; [constructor|].
  apply bind_Ok in Hx as (v & Hv & [= <-]).
  rewrite omap_cons_match. by constructor.
Qed.

(** X17.  The aliases of a constructed movie are the titles of the
    payload's alternative titles and its keywords the names of the
    payload's keywords, one for one and in order: none is dropped, and an
    entry without the field leaves no movie. *)
Theorem movie_aliases_and_keywords (lng payload : json) (m : Movie) :
  to_movie lng payload = Ok m →
  (∃ o i xs,
     getitem payload "alternative_titles" = Ok o
     ∧ getitem o "titles" = Ok i
     ∧ py_iter i = Ok xs
     ∧ Forall2 (λ x v, getitem x "title" = Ok v) xs
         (Movie.aliases (fields m)))
  ∧ ∃ k t o i xs,
      to_key lng = Some k
      ∧ translations m !! k = Some t
      ∧ getitem payload "keywords" = Ok o
      ∧ getitem o "keywords" = Ok i
      ∧ py_iter i = Ok xs
      ∧ Forall2 (λ x v, getitem x "name" = Ok v) xs
          (MovieTranslation.keywords t).
Proof.
  unfold to_movie. intros H. invert_binds H. injection H as <-. simpl.
  repeat match goal with
         | E : subitems _ _ _ _ = Ok _ |- _ => apply subitems_Ok in E
         end.
  split; [done|].
  match goal with
  | E : hash_key lng = Ok ?k |- _ => apply hash_key_Ok in E; exists k
  end.
  eexists. rewrite lookup_singleton_eq.
  match goal with
  | E : ∃ o i xs, getitem payload "keywords" = Ok o ∧ _ |- _ =>
      destruct E as (o & i & xs & ? & ? & ? & ?); exists o, i, xs
  end.
  done.
Qed.

(** X18.  The season, episode and absolute numbers have no influence on
    what [identify_episode] does; when the television search and the
    movie search return the same first hit, awaiting what it returns
    gives what [identify_movie] gives, and it fails where
    [identify_movie] fails before its fetches. *)
Theorem identify_episode_is_a_movie_lookup (Episode : Type) self
    (name : string) (L : list json) :
  (∀ season episode absolute season' episode' absolute' : option Z,
     identify_episode (Episode := Episode) self name season episode
       absolute L
     = identify_episode self name season' episode' absolute' L)
  ∧ (∀ (season episode absolute year : option Z) finish,
       first_hit self "search/tv" (tv_search name)
       = first_hit self "search/movie" (movie_search name year) →
       (identify_episode (Episode := Episode) self name season episode
          absolute L).1
       = (identify_movie self finish name year L).1
       ∧ match (identify_episode (Episode := Episode) self name season
                  episode absolute L).2 with
         | Ok (RCoroutine c) =>
             c finish = (identify_movie self finish name year L).2
         | Ok _ => False
         | Err e => (identify_movie self finish name year L).2 = Err e
         end).
Proof.
  split; [done|].
  intros season episode absolute year finish Hhit.
  unfold identify_episode, identify_movie. rewrite Hhit.
  destruct (first_hit self "search/movie" _) as [[hit_id ol]|e];
    cbn [fst snd]; split; reflexivity.
Qed.

End MoreRecords.

(** * The operations on explicit inputs *)

#[local] Existing Instance example_runtime.

(** Merging is by index: the base is the result for the first locale and
    every locale keeps its own title, in both completion orders. *)
Example merge_fr_en :
  let out := process_translations reversed (catalog_fetch []) [JStr "fr"; JStr "en"] in
  title_of out "fr" = Some (JStr "Matrix")
  ∧ title_of out "en" = Some (JStr "The Matrix")
  ∧ fields <$> out = fields <$> catalog_fetch [] (JStr "fr")
  ∧ out = process_translations in_order (catalog_fetch []) [JStr "fr"; JStr "en"].
Proof. by vm_compute. Qed.

Lemma process_translations_merge_witness :
  let L := ["fr"; "en"] in
  L ≠ []
  ∧ (∀ k, k ∈ L →
       ∃ e t, catalog_fetch [] (JStr k) = Ok e
              ∧ translations e !! KStr k = Some t)
  ∧ ∃ k0 e0 out,
      L !! 0%nat = Some k0
      ∧ catalog_fetch [] (JStr k0) = Ok e0
      ∧ process_translations reversed (catalog_fetch []) (JStr <$> L) = Ok out
      ∧ fields out = fields e0
      ∧ dom (translations out) = list_to_set (KStr <$> L)
      ∧ (∀ k, k ∈ L →
           ∃ e, catalog_fetch [] (JStr k) = Ok e
                ∧ translations out !! KStr k = translations e !! KStr k).
Proof.
  intros L.
  assert (L ≠ []) as Hne by done.
  assert (∀ k, k ∈ L →
            ∃ e t, catalog_fetch [] (JStr k) = Ok e
                   ∧ translations e !! KStr k = Some t) as Hall.
  { intros k Hk. subst L.
    apply elem_of_cons in Hk as [->|Hk];
      [|apply elem_of_cons in Hk as [->|Hk];
        [|by apply elem_of_nil in Hk]];
      eexists _, _;
      (split; [vm_compute; reflexivity | vm_compute; reflexivity]). }
  split; [exact Hne|]. split; [exact Hall|].
  exact (process_translations_merge reversed (catalog_fetch []) L Hne Hall).
Defined.

(** The second of three locales fails: the aggregation fails with its
    error. *)
Example second_of_three_fails :
  process_translations in_order (catalog_fetch ["en"])
    [JStr "fr"; JStr "en"; JStr "de"]
  = Err (ClientResponseError 503).
Proof. by vm_compute. Qed.

Lemma process_translations_all_or_nothing_witness :
  let L := [JStr "fr"; JStr "en"; JStr "de"] in
  let e := ClientResponseError 503 in
  JStr "en" ∈ L
  ∧ catalog_fetch ["en"] (JStr "en") = Err e
  ∧ is_ok (process_translations reversed (catalog_fetch ["en"]) L) = false
  ∧ (∃ k' e', k' ∈ L ∧ catalog_fetch ["en"] k' = Err e'
              ∧ process_translations reversed (catalog_fetch ["en"]) L = Err e')
  ∧ ((∀ k' e', k' ∈ L → catalog_fetch ["en"] k' = Err e' → e' = e) →
     process_translations reversed (catalog_fetch ["en"]) L = Err e).
Proof.
  intros L e.
  assert (JStr "en" ∈ L) as Hin by (subst L; set_solver).
  assert (catalog_fetch ["en"] (JStr "en") = Err e) as He by (by vm_compute).
  split; [exact Hin|]. split; [exact He|].
  exact (process_translations_all_or_nothing reversed (catalog_fetch ["en"]) L
           (JStr "en") e Hin He).
Defined.

(** The requested locales already hold the original language "en": the
    list is left as it is and each locale counts once. *)
Example identify_movie_fr_en :
  match identify_movie (tmdb [search_hit] []) in_order "matrix"
          (Some 1999) [JStr "fr"; JStr "en"] with
  | (L', r) =>
      L' = [JStr "fr"; JStr "en"]
      ∧ (elements ∘ dom ∘ translations) <$> r = Ok [KStr "en"; KStr "fr"]
      ∧ title_of r "fr" = Some (JStr "Matrix")
      ∧ title_of r "en" = Some (JStr "The Matrix")
  end.
Proof. by vm_compute. Qed.

(** Only "fr" is requested: "en" is appended to the caller's list and
    fetched as well. *)
Example identify_movie_fr :
  match identify_movie (tmdb [search_hit] []) in_order "matrix"
          None [JStr "fr"] with
  | (L', r) =>
      L' = [JStr "fr"; JStr "en"]
      ∧ (elements ∘ dom ∘ translations) <$> r = Ok [KStr "en"; KStr "fr"]
  end.
Proof. by vm_compute. Qed.

Lemma identify_movie_locales_witness :
  let self := tmdb [search_hit] [] in
  let L := [JStr "fr"; JStr "en"] in
  ∃ L' (m : Movie),
    identify_movie self reversed "matrix" (Some 1999) L = (L', Ok m)
    ∧ ∃ movie_id ol key,
        first_hit self "search/movie" (movie_search "matrix" (Some 1999))
        = Ok (movie_id, ol)
        ∧ to_key ol = Some key
        ∧ dom (translations m) = locale_set L ∪ {[ key ]}
        ∧ dom (translations m) ≠ ∅
        ∧ (py_eq (Movie.original_language (fields m)) ol = true →
           dom (translations m)
           = locale_set L
             ∪ locale_set [Movie.original_language (fields m)]).
Proof.
  intros self L. eexists _, _. split; [vm_compute; reflexivity|].
  eapply (identify_movie_locales self reversed "matrix" (Some 1999) L).
  vm_compute; reflexivity.
Defined.

(** The search result declares "ja" and the detail payload "en": the
    keys follow the search result. *)
Lemma identify_movie_keys_follow_search_hit :
  let r := identify_movie (tmdb [search_hit_ja] []) in_order "matrix" None
             [JStr "fr"] in
  r.1 = [JStr "fr"; JStr "ja"]
  ∧ (Movie.original_language ∘ fields) <$> r.2 = Ok (JStr "en")
  ∧ (elements ∘ dom ∘ translations) <$> r.2 = Ok [KStr "fr"; KStr "ja"]
  ∧ (λ m : Movie, bool_decide (KStr "en" ∈ dom (translations m))) <$> r.2
    = Ok false.
Proof. by vm_compute. Qed.

(** The search finds nothing. *)
Lemma empty_search_is_IndexError :
  (identify_movie (tmdb [] []) in_order "matrix" None [JStr "fr"]).2
  = Err IndexError
  ∧ (identify_episode (Episode := Empty_set) (tmdb [] []) "matrix"
       (Some 1) (Some 2) None [JStr "fr"]).2
    = Err IndexError
  ∧ IndexError ≠ NotFoundError.
Proof. by vm_compute. Qed.

Lemma empty_search_raises_IndexError_witness :
  let self := tmdb [] [] in
  let r := JObj {[ "results" := JList [] ]} in
  get self "search/movie" (movie_search "matrix" None) = Ok r
  ∧ getitem r "results" = Ok (JList [])
  ∧ identify_movie self in_order "matrix" None [JStr "fr"]
    = ([JStr "fr"], Err IndexError).
Proof.
  intros self r.
  assert (get self "search/movie" (movie_search "matrix" None) = Ok r)
    as Hget by (by vm_compute).
  assert (getitem r "results" = Ok (JList [])) as Hres by (by vm_compute).
  split; [exact Hget|]. split; [exact Hres|].
  exact (proj1 empty_search_raises_IndexError self in_order "matrix" None
           [JStr "fr"] r Hget Hres).
Defined.

(** An image entry without the key. *)
Lemma get_image_missing_key_raises :
  let images := JList [image_entry (JStr "/abc.jpg"); JObj ∅] in
  get_image images = Err (KeyError (KStr "file_path"))
  ∧ is_ok (get_image images) = false.
Proof. by vm_compute. Qed.

Example get_image_abc :
  get_image (JList [image_entry (JStr "/abc.jpg"); image_entry JNull;
                    image_entry (JStr "")])
  = Ok ["https://image.tmdb.org/t/p/original/abc.jpg"].
Proof. by vm_compute. Qed.

Lemma get_image_urls_witness :
  let entries : list (gmap string json) :=
    [{[ "file_path" := JStr "/abc.jpg" ]}; {[ "file_path" := JNull ]}] in
  let paths := [JStr "/abc.jpg"; JNull] in
  Forall2 (λ o p, o !! "file_path" = Some p) entries paths
  ∧ get_image (JList (JObj <$> entries))
    = Ok ((λ p, image_base +:+ py_str p)
            <$> filter (λ p, truthy p = true) paths).
Proof.
  intros entries paths.
  assert (Forall2 (λ o p, o !! "file_path" = Some p) entries paths) as HF.
  { repeat constructor. }
  split; [exact HF|].
  exact (proj1 get_image_urls entries paths HF).
Defined.

(** A mapping that names [api_key] itself. *)
Lemma get_api_key_overridden :
  let params : gmap string json :=
    {[ "api_key" := JStr "other"; "page" := JNull ]} in
  api_key echo = "k3y"
  ∧ query_params echo params !! "api_key" = Some (JStr "other")
  ∧ get echo "configuration" params
    = Ok (JObj {[ "api_key" := JStr "other" ]}).
Proof. by vm_compute. Qed.

Example get_sends_api_key :
  get echo "configuration" {[ "page" := JNull; "query" := JStr "matrix" ]}
  = Ok (JObj {[ "api_key" := JStr "k3y"; "query" := JStr "matrix" ]}).
Proof. by vm_compute. Qed.

Lemma get_contract_witness :
  let self := tmdb [search_hit] ["en"] in
  let params : gmap string json := {[ "language" := JStr "en" ]} in
  let r := Response 503 (Err ValueError) in
  _client self (base +:+ "/" +:+ "/movie/603") (query_params self params)
  = Ok r
  ∧ get self "/movie/603" params = Err (ClientResponseError 503).
Proof.
  intros self params r.
  assert (_client self (base +:+ "/" +:+ "/movie/603")
            (query_params self params) = Ok r) as Hr by (by vm_compute).
  split; [exact Hr|].
  refine (proj1 (proj2 (proj2 (proj2 (proj2 (proj2
            (get_contract self "/movie/603" params)))))) r Hr _).
  by vm_compute.
Defined.

Lemma movie_status_released_witness :
  let payload := detail_payload "The Matrix" "Post Production" in
  ∃ m : Movie,
    to_movie (JStr "en") payload = Ok m
    ∧ ∃ st, getitem payload "status" = Ok st
            ∧ (st = JStr "Released" →
               Movie.status (fields m) = MovieStatus.FINISHED)
            ∧ (st ≠ JStr "Released" →
               Movie.status (fields m) = MovieStatus.PLANNED).
Proof.
  intros payload. eexists. split; [vm_compute; reflexivity|].
  eapply (movie_status_released (JStr "en") payload).
  vm_compute; reflexivity.
Defined.

Example status_released_and_not :
  (Movie.status ∘ fields)
    <$> to_movie (JStr "en") (detail_payload "The Matrix" "Released")
  = Ok MovieStatus.FINISHED
  ∧ (Movie.status ∘ fields)
      <$> to_movie (JStr "en")
            (detail_payload "The Matrix" "Post Production")
    = Ok MovieStatus.PLANNED.
Proof. by vm_compute. Qed.



(** What the caller of [identify_episode] holds, and what awaiting it
    gives. *)
Example identify_episode_gives_movie :
  match (identify_episode (Episode := Empty_set) (tmdb [search_hit] [])
           "matrix" (Some 1) (Some 2) None [JStr "fr"]).2 with
  | Ok (RCoroutine c) =>
      (elements ∘ dom ∘ translations) <$> c in_order
      = Ok [KStr "en"; KStr "fr"]
  | _ => False
  end.
Proof. by vm_compute. Qed.

Lemma identify_episode_returns_coroutine_witness :
  let self := tmdb [search_hit] [] in
  ∃ L' (v : returned Empty_set),
    identify_episode self "matrix" (Some 1) (Some 2) None [JStr "fr"]
    = (L', Ok v)
    ∧ is_episode v = false
    ∧ ∃ show_id ol,
        first_hit self "search/tv" (tv_search "matrix") = Ok (show_id, ol)
        ∧ v = RCoroutine
                (λ finish,
                   process_translations finish
                     (movie_for_language self show_id) L').
Proof.
  intros self.
  exists [JStr "fr"; JStr "en"],
    (RCoroutine
       (λ finish,
          process_translations finish
            (movie_for_language self (JInt 603)) [JStr "fr"; JStr "en"])).
  assert (first_hit self "search/tv" (tv_search "matrix")
          = Ok (JInt 603, JStr "en")) as Hhit by (by vm_compute).
  assert (identify_episode (Episode := Empty_set) self "matrix" (Some 1)
            (Some 2) None [JStr "fr"]
          = ([JStr "fr"; JStr "en"],
             Ok (RCoroutine
                   (λ finish,
                      process_translations finish
                        (movie_for_language self (JInt 603))
                        [JStr "fr"; JStr "en"])))) as Hid.
  { unfold identify_episode. by rewrite Hhit. }
  split; [exact Hid|].
  exact (identify_episode_returns_coroutine Empty_set self "matrix"
           (Some 1) (Some 2) None [JStr "fr"] _ _ Hid).
Defined.

(** ** Further properties on explicit inputs *)

Lemma to_studio_company_witness :
  let o := company (Some JNull) in
  o !! "name" = Some (JStr "Village Roadshow")
  ∧ o !! "id" = Some (JInt 79)
  ∧ o !! "logo_path" = Some JNull
  ∧ Studio.logos <$> to_studio (JObj o)
    = Ok ["https://image.tmdb.org/t/p/originalNone"].
Proof.
  intros o.
  assert (o !! "name" = Some (JStr "Village Roadshow")) as Hn by done.
  assert (o !! "id" = Some (JInt 79)) as Hi by done.
  assert (o !! "logo_path" = Some JNull) as Hp by done.
  split; [exact Hn|]. split; [exact Hi|]. split; [exact Hp|].
  exact (proj1 (proj2 (to_studio_company o)) _ _ Hn Hi Hp).
Defined.

Lemma trailers_are_youtube_trailers_witness :
  let entries : list (gmap string json) :=
    [{[ "type" := JStr "Trailer"; "site" := JStr "YouTube";
        "key" := JStr "=vKQi3bBA1y8" ]};
     {[ "type" := JStr "Teaser" ]};
     {[ "type" := JStr "Trailer"; "site" := JStr "Vimeo" ]}] in
  let v := JObj {[ "results" := JList (JObj <$> entries) ]} in
  let j := JObj {[ "videos" := v ]} in
  let rs := [Some "https://www.youtube.com/watch?v=vKQi3bBA1y8";
             None; None] in
  getitem j "videos" = Ok v
  ∧ getitem v "results" = Ok (JList (JObj <$> entries))
  ∧ trailers_of j = Ok (omap (λ r, r) rs)
  ∧ omap (λ r, r) rs = ["https://www.youtube.com/watch?v=vKQi3bBA1y8"].
Proof.
  intros entries v j rs.
  assert (getitem j "videos" = Ok v) as Hv by done.
  assert (getitem v "results" = Ok (JList (JObj <$> entries))) as Hr by done.
  split; [exact Hv|]. split; [exact Hr|]. split; [|done].
  refine (proj1 trailers_are_youtube_trailers j v entries rs Hv Hr _).
  constructor; [|constructor; [|constructor; [|constructor]]].
  - right. right. by exists (JStr "=vKQi3bBA1y8").
  - left. by exists (JStr "Teaser").
  - right. left. by exists (JStr "Vimeo").
Defined.

Lemma show_status_never_planned_witness :
  let payload := show_payload "Game of Thrones" "Returning Series" true in
  (∃ s : Show,
     to_show (JStr "en") payload = Ok s
     ∧ Show.status (fields s) = ShowStatus.AIRING
     ∧ Show.status (fields s) ≠ ShowStatus.PLANNED
     ∧ ∃ st, getitem payload "status" = Ok st
             ∧ (st = JStr "Released" →
                Show.status (fields s) = ShowStatus.FINISHED)
             ∧ (st ≠ JStr "Released" →
                ∃ p, getitem payload "in_production" = Ok p
                     ∧ Show.status (fields s)
                       = if truthy p then ShowStatus.AIRING
                         else ShowStatus.FINISHED))
  ∧ ∃ o : gmap string json,
      show_payload "Game of Thrones" "Released" true = JObj o
      ∧ o !! "status" = Some (JStr "Released")
      ∧ to_show (JStr "en") (JObj (delete "in_production" o))
        = to_show (JStr "en") (JObj o)
      ∧ (Show.status ∘ fields)
          <$> to_show (JStr "en") (JObj (delete "in_production" o))
        = Ok ShowStatus.FINISHED.
Proof.
  intros payload. split.
  - eexists. split; [vm_compute; reflexivity|].
    split; [by vm_compute|].
    eapply (proj1 show_status_never_planned (JStr "en") payload).
    vm_compute; reflexivity.
  - eexists. split; [unfold show_payload; reflexivity|].
    split; [by vm_compute|]. split; [|by vm_compute].
    refine (proj1 (proj2 show_status_never_planned) (JStr "en") _ _ _ _).
    + by vm_compute.
    + intros k Hk. by apply lookup_delete_ne.
Defined.

(** With another status, a payload without [in_production] is not
    mapped. *)
Example ended_show_needs_in_production :
  match show_payload "Game of Thrones" "Ended" true with
  | JObj o => to_show (JStr "en") (JObj (delete "in_production" o))
  | _ => Err TypeError
  end
  = Err (KeyError (KStr "in_production")).
Proof. by vm_compute. Qed.

Lemma to_genres_hashable_ids_witness :
  let entries : list (gmap string json) :=
    [{[ "id" := JStr "28" ]}; {[ "id" := JInt 28 ]}; {[ "id" := JNull ]};
     {[ "id" := JBool true ]}] in
  let keys := [KStr "28"; KNum 28; KNone; KNum 1] in
  Forall2 (λ o k, ∃ c, o !! "id" = Some c ∧ to_key c = Some k) entries keys
  ∧ to_genres (JList (JObj <$> entries)) = Ok (omap (genre_map !!.) keys)
  ∧ omap (genre_map !!.) keys = [ACTION].
Proof.
  intros entries keys.
  assert (Forall2 (λ o k, ∃ c, o !! "id" = Some c ∧ to_key c = Some k)
            entries keys) as HF.
  { repeat (constructor; [by eexists|]). constructor. }
  split; [exact HF|]. split; [|by vm_compute].
  exact (proj1 to_genres_hashable_ids entries keys HF).
Defined.

Lemma to_movie_locale_is_the_key_witness :
  let payload := detail_payload "The Matrix" "Released" in
  ∃ (m : Movie),
    to_movie (JStr "en") payload = Ok m
    ∧ to_key (JStr "fr") = Some (KStr "fr")
    ∧ ∃ k t,
        to_key (JStr "en") = Some k
        ∧ translations m = {[ k := t ]}
        ∧ to_movie (JStr "fr") payload
          = Ok (Entity (fields m) {[ KStr "fr" := t ]}).
Proof.
  intros payload. eexists. split; [vm_compute; reflexivity|].
  split; [done|].
  eapply (to_movie_locale_is_the_key (JStr "en") (JStr "fr") payload);
    [vm_compute; reflexivity | done].
Defined.

(** A payload without a release date. *)
Lemma movie_needs_release_date_witness :
  let payload := JObj {[ "original_language" := JStr "en";
                         "alternative_titles" :=
                           JObj {[ "titles" := JList [] ]};
                         "release_date" := JNull ]} in
  getitem payload "release_date" = Ok JNull
  ∧ is_ok (to_movie (JStr "en") payload) = false
  ∧ to_movie (JStr "en") payload = Err TypeError.
Proof.
  intros payload.
  assert (getitem payload "release_date" = Ok JNull) as Hd by done.
  split; [exact Hd|]. split; [|by vm_compute].
  refine (proj2 (movie_needs_release_date (JStr "en") payload) JNull Hd _).
  intros s Hs. discriminate Hs.
Defined.

Lemma movie_external_ids_witness :
  let payload := detail_payload "The Matrix" "Released" in
  ∃ (m : Movie),
    to_movie (JStr "en") payload = Ok m
    ∧ ∃ i imdb,
        getitem payload "id" = Ok i
        ∧ getitem payload "imdb_id" = Ok imdb
        ∧ Movie.external_id (fields m)
          = {[ "themoviedatabase" :=
                 mkMetadataID i
                   ("https://www.themoviedb.org/movie/" +:+ py_str i);
               "imdb" :=
                 mkMetadataID imdb
                   ("https://www.imdb.com/title/" +:+ py_str imdb) ]}
        ∧ dom (Movie.external_id (fields m))
          = {[ "themoviedatabase"; "imdb" ]}.
Proof.
  intros payload. eexists. split; [vm_compute; reflexivity|].
  eapply (movie_external_ids (JStr "en") payload).
  vm_compute; reflexivity.
Defined.

Lemma get_image_prefix_witness :
  let xs := [image_entry (JStr "/abc.jpg"); image_entry JNull;
             image_entry (JInt 7)] in
  let urls := ["https://image.tmdb.org/t/p/original/abc.jpg";
               "https://image.tmdb.org/t/p/original7"] in
  get_image (JList xs) = Ok urls
  ∧ Forall (λ u, ∃ p, u = "https://image.tmdb.org/t/p/original" +:+ p) urls
  ∧ (length urls ≤ length xs)%nat.
Proof.
  intros xs urls.
  assert (get_image (JList xs) = Ok urls) as H by (by vm_compute).
  split; [exact H|]. exact (get_image_prefix xs urls H).
Defined.

Lemma language_list_grows_once_witness :
  let self := tmdb [search_hit] [] in
  let L := [JStr "fr"] in
  let L1 := (identify_movie self in_order "matrix" None L).1 in
  first_hit self "search/movie" (movie_search "matrix" None)
  = Ok (JInt 603, JStr "en")
  ∧ L1 = [JStr "fr"; JStr "en"]
  ∧ (identify_movie self reversed "matrix" None L1).1 = L1
  ∧ (length L1 ≤ S (length L))%nat
  ∧ L `prefix_of` L1.
Proof.
  intros self L L1.
  assert (first_hit self "search/movie" (movie_search "matrix" None)
          = Ok (JInt 603, JStr "en")) as Hhit by (by vm_compute).
  split; [exact Hhit|]. split; [by vm_compute|].
  exact (language_list_grows_once self in_order reversed "matrix" None L
           (JInt 603) (JStr "en") Hhit (mk_is_Some _ _ eq_refl)).
Defined.

Lemma identification_fails_before_the_list_changes_witness :
  let self := mkTheMovieDatabase
                (λ _ _, Ok (Response 401 (Err ValueError))) "wrong" in
  identify_movie self in_order "matrix" None [JStr "fr"]
  = ([JStr "fr"], Err (ClientResponseError 401)).
Proof.
  intros self.
  refine (proj1 identification_fails_before_the_list_changes self in_order
            "matrix" None [JStr "fr"] (Response 401 (Err ValueError))
            eq_refl _).
  by vm_compute.
Defined.

Lemma one_rejected_locale_fails_the_movie_witness :
  let self := tmdb [search_hit] ["en"] in
  let L := [JStr "fr"] in
  first_hit self "search/movie" (movie_search "matrix" None)
  = Ok (JInt 603, JStr "en")
  ∧ JStr "en" ∈ add_language (JStr "en") L
  ∧ (identify_movie self reversed "matrix" None L).1
    = add_language (JStr "en") L
  ∧ is_ok (identify_movie self reversed "matrix" None L).2 = false.
Proof.
  intros self L.
  assert (first_hit self "search/movie" (movie_search "matrix" None)
          = Ok (JInt 603, JStr "en")) as Hhit by (by vm_compute).
  assert (JStr "en" ∈ add_language (JStr "en") L) as Hin.
  { vm_compute. set_solver. }
  split; [exact Hhit|]. split; [exact Hin|].
  refine (one_rejected_locale_fails_the_movie self reversed "matrix" None L
            (JInt 603) (JStr "en") (JStr "en")
            (Response 503 (Err ValueError)) Hhit Hin _ _);
    by vm_compute.
Defined.

Lemma identify_movie_by_locale_witness :
  let self := tmdb [search_hit] [] in
  let L := ["fr"] in
  first_hit self "search/movie" (movie_search "matrix" None)
  = Ok (JInt 603, JStr "en")
  ∧ ∃ L' (m : Movie),
      identify_movie self reversed "matrix" None (JStr <$> L) = (L', Ok m)
      ∧ L' = JStr <$> ["fr"; "en"]
      ∧ (∃ k0 e0, ["fr"; "en"] !! 0%nat = Some k0
                  ∧ movie_for_language self (JInt 603) (JStr k0) = Ok e0
                  ∧ fields m = fields e0)
      ∧ ∀ k, k ∈ ["fr"; "en"] →
          ∃ e t, movie_for_language self (JInt 603) (JStr k) = Ok e
                 ∧ translations e = {[ KStr k := t ]}
                 ∧ translations m !! KStr k = Some t.
Proof.
  intros self L.
  assert (first_hit self "search/movie" (movie_search "matrix" None)
          = Ok (JInt 603, JStr "en")) as Hhit by (by vm_compute).
  split; [exact Hhit|]. eexists _, _. split; [vm_compute; reflexivity|].
  eapply (identify_movie_by_locale self reversed "matrix" None L (JInt 603)
            "en" _ _ Hhit).
  vm_compute; reflexivity.
Defined.

Lemma to_season_summary_witness :
  let o : gmap string json :=
    {[ "season_number" := JInt 2; "air_date" := JStr "2012-04-01";
       "id" := JInt 3625; "name" := JStr "Season 2";
       "overview" := JStr ""; "poster_path" := JNull ]} in
  (Season.external_id ∘ fields) <$> to_season (JObj o) (JStr "fr") (JInt 1399)
  = Ok {[ "themoviedatabase" :=
            mkMetadataID (JInt 3625)
              "https://www.themoviedb.org/tv/1399/season/2" ]}
  ∧ to_season (JObj o) (JStr "fr") (JInt 1399)
    = Ok (Entity
            (Season.mk (JInt 2) (Date 2012 4 1) None
               {[ "themoviedatabase" :=
                    mkMetadataID (JInt 3625)
                      ("https://www.themoviedb.org/tv/" +:+ py_str (JInt 1399)
                         +:+ "/season/" +:+ py_str (JInt 2)) ]})
            {[ KStr "fr" :=
                 SeasonTranslation.mk (JStr "Season 2") (JStr "")
                   (match o !! "poster_path" with
                    | Some p => [image_base +:+ py_str p]
                    | None => []
                    end) [] ]}).
Proof.
  intros o. split; [by vm_compute|].
  refine (to_season_summary o (JStr "fr") (JInt 1399) (JInt 2) (JInt 3625)
            (JStr "Season 2") (JStr "") "2012-04-01" (Date 2012 4 1)
            (KStr "fr") _ _ _ _ _ _ _); by vm_compute.
Defined.

Lemma show_seasons_first_locale_only_witness :
  ∃ L' (s : Show),
    identify_show tv_tmdb in_order partial_show [JStr "fr"] = (L', Ok s)
    ∧ L' = [JStr "fr"; JStr "en"]
    ∧ length (Show.seasons (fields s)) = 2%nat
    ∧ dom (translations s) = locale_set L'
    ∧ ∃ k0 key,
        L' !! 0%nat = Some k0
        ∧ to_key k0 = Some key
        ∧ Forall (λ se : Season,
                    dom (translations se) = {[ key ]}
                    ∧ Season.end_date (fields se) = None)
            (Show.seasons (fields s)).
Proof.
  eexists _, _. split; [vm_compute; reflexivity|].
  split; [done|]. split; [done|].
  eapply (show_seasons_first_locale_only tv_tmdb in_order partial_show
            [JStr "fr"]).
  vm_compute; reflexivity.
Defined.

Lemma show_needs_dates_witness :
  let payload := show_payload "Game of Thrones" "Ended" false in
  ∃ s : Show,
    to_show (JStr "en") payload = Ok s
    ∧ (∃ s1 s2,
         getitem payload "first_air_date" = Ok (JStr s1)
         ∧ strptime_ymd s1 = Some (Show.start_air (fields s))
         ∧ getitem payload "last_air_date" = Ok (JStr s2)
         ∧ strptime_ymd s2 = Some (Show.end_air (fields s)))
    ∧ ∃ ss xs,
        getitem payload "seasons" = Ok ss
        ∧ py_iter ss = Ok xs
        ∧ Forall2 (λ x (se : Season),
                     ∃ sd, getitem x "air_date" = Ok (JStr sd)
                           ∧ strptime_ymd sd
                             = Some (Season.start_date (fields se)))
            xs (Show.seasons (fields s)).
Proof.
  intros payload. eexists. split; [vm_compute; reflexivity|].
  eapply (show_needs_dates (JStr "en") payload).
  vm_compute; reflexivity.
Defined.

Lemma movie_aliases_and_keywords_witness :
  let payload := detail_payload "The Matrix" "Released" in
  ∃ m : Movie,
    to_movie (JStr "en") payload = Ok m
    ∧ Movie.aliases (fields m) = [JStr "Matrix"]
    ∧ (∃ o i xs,
         getitem payload "alternative_titles" = Ok o
         ∧ getitem o "titles" = Ok i
         ∧ py_iter i = Ok xs
         ∧ Forall2 (λ x v, getitem x "title" = Ok v) xs
             (Movie.aliases (fields m)))
    ∧ ∃ k t o i xs,
        to_key (JStr "en") = Some k
        ∧ translations m !! k = Some t
        ∧ getitem payload "keywords" = Ok o
        ∧ getitem o "keywords" = Ok i
        ∧ py_iter i = Ok xs
        ∧ Forall2 (λ x v, getitem x "name" = Ok v) xs
            (MovieTranslation.keywords t).
Proof.
  intros payload. eexists. split; [vm_compute; reflexivity|].
  split; [done|].
  eapply (movie_aliases_and_keywords (JStr "en") payload).
  vm_compute; reflexivity.
Defined.

Lemma identify_episode_is_a_movie_lookup_witness :
  let self := tmdb [search_hit] [] in
  first_hit self "search/tv" (tv_search "matrix")
  = first_hit self "search/movie" (movie_search "matrix" (Some 1999))
  ∧ (identify_episode (Episode := Empty_set) self "matrix" (Some 1)
       (Some 2) None [JStr "fr"]).1
    = (identify_movie self in_order "matrix" (Some 1999) [JStr "fr"]).1
  ∧ match (identify_episode (Episode := Empty_set) self "matrix" (Some 1)
             (Some 2) None [JStr "fr"]).2 with
    | Ok (RCoroutine c) =>
        c in_order
        = (identify_movie self in_order "matrix" (Some 1999) [JStr "fr"]).2
    | Ok _ => False
    | Err e =>
        (identify_movie self in_order "matrix" (Some 1999) [JStr "fr"]).2
        = Err e
    end.
Proof.
  intros self.
  assert (first_hit self "search/tv" (tv_search "matrix")
          = first_hit self "search/movie"
              (movie_search "matrix" (Some 1999))) as Hhit by (by vm_compute).
  split; [exact Hhit|].
  exact (proj2 (identify_episode_is_a_movie_lookup Empty_set self "matrix"
                  [JStr "fr"]) (Some 1) (Some 2) None (Some 1999) in_order
           Hhit).
Defined.
